(** * A word-placement game engine: board, tile pool and turn handling

    Shallow embedding of [src/scrabble.py].

    - Python integers are [Z]; list lengths and resolved list indices are [nat].
    - A one-character Python [str] (the alias [Letter]) is an [ascii]; a word is
      a [string], iterated letter by letter.
    - Python list indexing is modelled with its negative-index wrap-around and
      with [IndexError] outside [-len, len).
    - Code that can raise returns a [result]; code that mutates the board in
      place takes the board and returns the board it leaves behind. *)

From Stdlib Require Import ZArith Lia Ascii String.
From stdpp Require Import base option list strings.

Local Open Scope Z_scope.

(** ** Exceptions and results *)

Inductive exn : Set := IndexError | ValueError.

Inductive result (A : Type) : Type :=
  | Ok (a : A)
  | Raise (e : exn).
Arguments Ok {A} a.
Arguments Raise {A} e.

#[export] Instance result_ret : MRet result := fun _ a => Ok a.
#[export] Instance result_bind : MBind result := fun _ _ f r =>
  match r with
  | Ok a => f a
  | Raise e => Raise e
  end.

(** ** Python sequences *)

Definition Letter : Type := ascii.

(** The letters of a [str], in iteration order. *)
Definition letters (word : string) : list Letter := list_ascii_of_string word.

(** [len(word)] *)
Definition len (word : string) : Z := Z.of_nat (String.length word).

(** Resolution of a Python index [i] into a list of length [n]:
    [0 <= i < n] is itself, [-n <= i < 0] counts from the end, anything else
    raises [IndexError]. *)
Definition index (n : nat) (i : Z) : result nat :=
  if decide (0 ≤ i < Z.of_nat n) then Ok (Z.to_nat i)
  else if decide (- Z.of_nat n ≤ i < 0) then Ok (Z.to_nat (i + Z.of_nat n))
  else Raise IndexError.

(** [l[i]] *)
Definition getitem {A} (l : list A) (i : Z) : result A :=
  k ← index (length l) i;
  match l !! k with
  | Some x => Ok x
  | None => Raise IndexError
  end.

(** [l[i] = x], returning the list after the assignment *)
Definition setitem {A} (l : list A) (i : Z) (x : A) : result (list A) :=
  k ← index (length l) i;
  Ok (<[k := x]> l).

(** [range(n)]: 0, 1, ..., n - 1; empty for [n <= 0]. *)
Definition range (n : Z) : list Z := seqZ 0 n.

(** [sep.join(parts)] *)
Definition join (sep : string) (parts : list string) : string :=
  String.concat sep parts.

(** ** Positions *)

Definition CellCoord : Type := Z * Z.

Inductive Direction : Set := ACROSS | DOWN.

(** ** Board *)

Module Board.

Record t : Type := mk { size : Z; _tiles : list (list Letter) }.

(** The marker of an empty cell. *)
Definition dot : Letter := "."%char.

(** [Board.__init__] *)
Definition init : t :=
  {| size := 15;
     _tiles := replicate (Z.to_nat 15) (replicate (Z.to_nat 15) dot) |}.

(** [Board.tile]: [self._tiles[row][col]] *)
Definition tile (b : t) (pos : CellCoord) : result Letter :=
  let '(row, col) := pos in
  r ← getitem (_tiles b) row;
  getitem r col.

(** [Board.set_tile]: [self._tiles[row][col] = tile]. The row list is
    fetched first, then assigned into; the rows are distinct objects, so
    only that row changes. *)
Definition set_tile (b : t) (pos : CellCoord) (tile : Letter) : result t :=
  let '(row, col) := pos in
  k ← index (length (_tiles b)) row;
  r ← getitem (_tiles b) row;
  r' ← setitem r col tile;
  Ok {| size := size b; _tiles := <[k := r']> (_tiles b) |}.

(** [Board.in_bounds] *)
Definition in_bounds (b : t) (pos : CellCoord) : bool :=
  let '(row, col) := pos in
  bool_decide (0 ≤ row < size b) && bool_decide (0 ≤ col < size b).

(** [Board.is_empty]: [self.in_bounds(pos) and self.tile(pos) == "."];
    [and] does not evaluate [tile] when [in_bounds] is false. *)
Definition is_empty (b : t) (pos : CellCoord) : result bool :=
  if in_bounds b pos then
    x ← tile b pos;
    Ok (bool_decide (x = dot))
  else Ok false.

(** [Board.is_first_turn] *)
Definition is_first_turn (b : t) : bool :=
  forallb (fun row => forallb (fun cell => bool_decide (cell = dot)) row)
          (_tiles b).

(** The cell the [i]-th letter goes to. *)
Definition cell (start : CellCoord) (direction : Direction) (i : Z)
  : CellCoord :=
  match direction with
  | ACROSS => (start.1, start.2 + i)
  | DOWN => (start.1 + i, start.2)
  end.

(** The validation loop of [place_word],
    [for i, letter in enumerate(word): if not self.is_empty(p) and
    self.tile(p) != letter: return False], started at index [i].
    [Ok false] is the [return False]; [Ok true] is the loop running to its
    end. [and] evaluates [tile] only when [is_empty] is false. *)
Fixpoint check (b : t) (start : CellCoord) (direction : Direction) (i : Z)
    (word : list Letter) : result bool :=
  match word with
  | [] => Ok true
  | letter :: rest =>
      e ← is_empty b (cell start direction i);
      if negb e then
        x ← tile b (cell start direction i);
        if negb (bool_decide (x = letter)) then Ok false
        else check b start direction (i + 1) rest
      else check b start direction (i + 1) rest
  end.

(** The writing loop of [place_word], started at index [i]; the board
    returned with a [Raise] is the board as the exception leaves it. *)
Fixpoint write (b : t) (start : CellCoord) (direction : Direction) (i : Z)
    (word : list Letter) : result unit * t :=
  match word with
  | [] => (Ok tt, b)
  | letter :: rest =>
      match set_tile b (cell start direction i) letter with
      | Ok b' => write b' start direction (i + 1) rest
      | Raise e => (Raise e, b)
      end
  end.

(** [Board.place_word]: the value returned (or the exception raised) and
    the board afterwards. *)
Definition place_word (b : t) (word : string) (start : CellCoord)
    (direction : Direction) : result bool * t :=
  let fits :=
    match direction with
    | ACROSS =>
        if decide (start.2 + len word > size b) then Ok false
        else check b start ACROSS 0 (letters word)
    | DOWN =>
        if decide (start.1 + len word > size b) then Ok false
        else check b start DOWN 0 (letters word)
    end in
  match fits with
  | Raise e => (Raise e, b)
  | Ok false => (Ok false, b)
  | Ok true =>
      match write b start direction 0 (letters word) with
      | (Ok _, b') => (Ok true, b')
      | (Raise e, b') => (Raise e, b')
      end
  end.

(** The number of non-empty cells of the board. *)
Definition occupied (b : t) : nat :=
  length (filter (fun x => x ≠ dot) (concat (_tiles b))).

(** The shape every board built by [init] has and keeps: [size] rows of
    [size] cells. *)
Definition wf (b : t) : Prop :=
  Z.of_nat (length (_tiles b)) = size b ∧
  Forall (fun r => Z.of_nat (length r) = size b) (_tiles b).

(** [Board.all_positions]: [list(it.product(range(size), range(size)))],
    the rows in order and the columns in order within a row. *)
Definition all_positions (b : t) : list CellCoord :=
  list_prod (range (size b)) (range (size b)).

(** How [__str__] shows a cell: [x if x != "." else "_"]. *)
Definition shown (x : Letter) : string :=
  if decide (x ≠ dot) then String x EmptyString else "_"%string.

(** The line break ["\n"]. *)
Definition newline : string := String (ascii_of_nat 10) EmptyString.

(** [Board.__str__]: the rows joined by line breaks, the cells of a row
    joined by blanks. *)
Definition str (b : t) : string :=
  join newline (map (fun row => join " " (map shown row)) (_tiles b)).

End Board.

(** ** Tile pool *)

Module TileManager.

(** The frequency table, in the insertion order the dict is iterated in. *)
Definition tile_distribution : list (Letter * nat) :=
  [("A", 9); ("B", 2); ("C", 2); ("D", 4); ("E", 12); ("F", 2); ("G", 3);
   ("H", 2); ("I", 9); ("J", 1); ("K", 1); ("L", 4); ("M", 2); ("N", 6);
   ("O", 8); ("P", 2); ("Q", 1); ("R", 6); ("S", 4); ("T", 6); ("U", 4);
   ("V", 2); ("W", 2); ("X", 1); ("Y", 2); ("Z", 1)]%char%nat.

(** The pool before [random.shuffle]:
    [for tile, count in ...: pool.extend([tile] * count)]. *)
Definition unshuffled : list Letter :=
  fold_left (fun pool tc => pool ++ replicate tc.2 tc.1) tile_distribution [].

(** [TileManager.initialize_tile_pool]; [shuffle] is the rearrangement
    [random.shuffle] happens to make. *)
Definition initialize_tile_pool (shuffle : list Letter → list Letter)
  : list Letter :=
  shuffle unshuffled.

(** [list.pop()]: the last element and the list without it;
    [IndexError] on an empty list. *)
Definition pop (pool : list Letter) : result (Letter * list Letter) :=
  match last pool with
  | Some x => Ok (x, removelast pool)
  | None => Raise IndexError
  end.

(** The comprehension [[self.pool.pop() for _ in range(num) if self.pool]]
    with [k] iterations left: the tiles collected (or the exception) and
    the pool afterwards. *)
Fixpoint draw_loop (pool : list Letter) (k : nat)
  : result (list Letter) * list Letter :=
  match k with
  | O => (Ok [], pool)
  | S k' =>
      match pool with
      | [] => draw_loop pool k'
      | _ :: _ =>
          match pop pool with
          | Ok (x, pool') =>
              let '(r, pool'') := draw_loop pool' k' in
              (xs ← r; Ok (x :: xs), pool'')
          | Raise e => (Raise e, pool)
          end
      end
  end.

(** [TileManager.draw_tiles]; [range(num)] is empty for [num <= 0]. *)
Definition draw_tiles (pool : list Letter) (num : Z)
  : result (list Letter) * list Letter :=
  draw_loop pool (Z.to_nat num).

(** A sequence of [draw_tiles] calls: all the tiles returned so far, in
    order, and the pool afterwards. A raised exception ends the
    sequence. *)
Fixpoint draws (pool : list Letter) (nums : list Z)
  : result (list Letter) * list Letter :=
  match nums with
  | [] => (Ok [], pool)
  | num :: rest =>
      match draw_tiles pool num with
      | (Ok drawn, pool') =>
          let '(r, pool'') := draws pool' rest in
          (xs ← r; Ok (drawn ++ xs), pool'')
      | (Raise e, pool') => (Raise e, pool')
      end
  end.

End TileManager.

(** ** Game state and turns *)

Module GameState.

(** [players] is a dict with the two keys ["human"] and ["computer"], never
    added to or removed from: one field per key. [tile_manager] is the
    pool of the tile manager. *)
Record t : Type := mk {
  board : Board.t;
  tile_manager : list Letter;
  human : list Letter;
  computer : list Letter
}.

(** [GameState.__init__] *)
Definition init (shuffle : list Letter → list Letter) : t :=
  {| board := Board.init;
     tile_manager := TileManager.initialize_tile_pool shuffle;
     human := [];
     computer := [] |}.

(** [GameState.draw_player_tiles] *)
Definition draw_player_tiles (g : t) : result unit * t :=
  match TileManager.draw_tiles (tile_manager g) 7 with
  | (Ok drawn, pool') =>
      (Ok tt, {| board := board g; tile_manager := pool';
                 human := drawn; computer := computer g |})
  | (Raise e, pool') =>
      (Raise e, {| board := board g; tile_manager := pool';
                   human := human g; computer := computer g |})
  end.

(** [list.remove(x)]: drops the first element equal to [x];
    [ValueError] when there is none. *)
Fixpoint remove (hand : list Letter) (x : Letter) : result (list Letter) :=
  match hand with
  | [] => Raise ValueError
  | y :: hand' =>
      if decide (y = x) then Ok hand'
      else h ← remove hand' x; Ok (y :: h)
  end.

(** [for letter in word: if letter in hand: hand.remove(letter)]:
    the hand afterwards (as a raised exception leaves it). *)
Fixpoint remove_letters (hand : list Letter) (word : list Letter)
  : result unit * list Letter :=
  match word with
  | [] => (Ok tt, hand)
  | letter :: rest =>
      if bool_decide (letter ∈ hand) then
        match remove hand letter with
        | Ok hand' => remove_letters hand' rest
        | Raise e => (Raise e, hand)
        end
      else remove_letters hand rest
  end.

(** What [player_turn] prints last. *)
Inductive message : Set := WordPlaced | InvalidMove.

(** One move as read from the console: [word] and [direction_input] are
    the texts after [.strip().upper()], [row_input] and [col_input] the
    integers entered. *)
Record move : Type := mkmove {
  word : string;
  row_input : Z;
  col_input : Z;
  direction_input : string
}.

(** [GameState.player_turn] on the move read. *)
Definition player_turn (g : t) (m : move) : result message * t :=
  let row := row_input m - 1 in
  let col := col_input m - 1 in
  let direction :=
    if decide (direction_input m = "ACROSS"%string) then ACROSS else DOWN in
  if decide (word m = ""%string) then (Ok InvalidMove, g)
  else
    match Board.place_word (board g) (word m) (row, col) direction with
    | (Ok true, b') =>
        match remove_letters (human g) (letters (word m)) with
        | (Ok _, hand') =>
            match TileManager.draw_tiles (tile_manager g) (len (word m)) with
            | (Ok drawn, pool') =>
                (Ok WordPlaced,
                 {| board := b'; tile_manager := pool';
                    human := hand' ++ drawn; computer := computer g |})
            | (Raise e, pool') =>
                (Raise e,
                 {| board := b'; tile_manager := pool';
                    human := hand'; computer := computer g |})
            end
        | (Raise e, hand') =>
            (Raise e,
             {| board := b'; tile_manager := tile_manager g;
                human := hand'; computer := computer g |})
        end
    | (Ok false, b') =>
        (Ok InvalidMove,
         {| board := b'; tile_manager := tile_manager g;
            human := human g; computer := computer g |})
    | (Raise e, b') =>
        (Raise e,
         {| board := b'; tile_manager := tile_manager g;
            human := human g; computer := computer g |})
    end.

(** The [while True: self.player_turn()] of [game_loop] over the moves
    read so far; an exception leaves the loop. *)
Fixpoint turns (g : t) (moves : list move) : result unit * t :=
  match moves with
  | [] => (Ok tt, g)
  | m :: rest =>
      match player_turn g m with
      | (Ok _, g') => turns g' rest
      | (Raise e, g') => (Raise e, g')
      end
  end.

(** [GameState.game_loop], as far as the moves read go. *)
Definition game_loop (g : t) (moves : list move) : result unit * t :=
  match draw_player_tiles g with
  | (Ok _, g') => turns g' moves
  | (Raise e, g') => (Raise e, g')
  end.

(** [GameState.start_game] over the answers typed (after
    [.strip().lower()]) and the moves read once the game runs: ["yes"] starts
    the game loop, ["quit"] leaves, anything else asks again. With no answer
    left the game is still waiting. *)
Fixpoint start_game (g : t) (answers : list string) (moves : list move)
  : result unit * t :=
  match answers with
  | [] => (Ok tt, g)
  | user_input :: rest =>
      if decide (user_input = "yes"%string) then game_loop g moves
      else if decide (user_input = "quit"%string) then (Ok tt, g)
      else start_game g rest moves
  end.

(** Tiles in the pool, in all hands and on the board. *)
Definition tally (g : t) : nat :=
  (length (tile_manager g) + (length (human g) + length (computer g))
   + Board.occupied (board g))%nat.

End GameState.

(** ** Vocabulary of the properties *)

(** 1 when [P x] holds, 0 otherwise. *)
Definition ind {A} (P : A → Prop) `{!∀ x, Decision (P x)} (x : A) : nat :=
  if decide (P x) then 1%nat else 0%nat.

(** The coordinate of [start] that advances in [direction]. *)
Definition along (start : CellCoord) (direction : Direction) : Z :=
  match direction with
  | ACROSS => start.2
  | DOWN => start.1
  end.

(** The coordinate of [start] that stays the same in [direction]. *)
Definition cross (start : CellCoord) (direction : Direction) : Z :=
  match direction with
  | ACROSS => start.1
  | DOWN => start.2
  end.

(** Letters other than the empty marker that go to cells [is_empty] holds
    of, from index [i] on. *)
Fixpoint fresh (b : Board.t) (start : CellCoord) (direction : Direction)
    (i : Z) (word : list Letter) : nat :=
  match word with
  | [] => 0%nat
  | letter :: rest =>
      ((match Board.is_empty b (Board.cell start direction i) with
        | Ok true => ind (λ y, y ≠ Board.dot) letter
        | _ => 0%nat
        end) + fresh b start direction (i + 1) rest)%nat
  end.

(** The letters that go to cells [is_empty] holds of, the empty marker
    counted like any other. *)
Fixpoint landed (b : Board.t) (start : CellCoord) (direction : Direction)
    (i : Z) (word : list Letter) : nat :=
  match word with
  | [] => 0%nat
  | letter :: rest =>
      ((match Board.is_empty b (Board.cell start direction i) with
        | Ok true => 1%nat
        | _ => 0%nat
        end) + landed b start direction (i + 1) rest)%nat
  end.

(** Every cell of the span is inside the bounds. *)
Definition span_on_board (b : Board.t) (word : string) (start : CellCoord)
    (direction : Direction) : Prop :=
  ∀ (n : nat) letter, letters word !! n = Some letter →
    Board.in_bounds b (Board.cell start direction (Z.of_nat n)) = true.

(** Every occupied cell of the span holds the letter the word has there. *)
Definition span_agrees (b : Board.t) (word : string) (start : CellCoord)
    (direction : Direction) : Prop :=
  ∀ (n : nat) letter x, letters word !! n = Some letter →
    Board.tile b (Board.cell start direction (Z.of_nat n)) = Ok x →
    x ≠ Board.dot → x = letter.

(** Some cell of the span holds a letter other than the word's. *)
Definition span_conflicts (b : Board.t) (word : string) (start : CellCoord)
    (direction : Direction) : Prop :=
  ∃ (n : nat) letter x, letters word !! n = Some letter ∧
    Board.tile b (Board.cell start direction (Z.of_nat n)) = Ok x ∧
    x ≠ Board.dot ∧ x ≠ letter.

(** The board holds the word along the span already. *)
Definition span_matches (b : Board.t) (word : string) (start : CellCoord)
    (direction : Direction) : Prop :=
  ∀ (n : nat) letter, letters word !! n = Some letter →
    Board.tile b (Board.cell start direction (Z.of_nat n)) = Ok letter.

(** [tile_distribution.get(x, 0)]: how many copies of [x] the table asks
    for. *)
Definition table_count (x : Letter) : nat :=
  match list_find (λ tc, tc.1 = x) TileManager.tile_distribution with
  | Some (_, tc) => tc.2
  | None => 0%nat
  end.

(** How often [x] occurs among the tiles. *)
Definition copies (x : Letter) (tiles : list Letter) : nat :=
  length (filter (λ y, y = x) tiles).

(** The hand update as the specification words it, independently of
    [list.remove]: the hand with the first occurrence of [x] taken out if
    there is one, the hand itself otherwise. *)
Definition without_first (hand : list Letter) (x : Letter) : list Letter :=
  match list_find (λ y, y = x) hand with
  | Some (i, _) => delete i hand
  | None => hand
  end.

(** The same for each letter of the word in order. *)
Definition discard (hand word : list Letter) : list Letter :=
  fold_left without_first word hand.

(** How many letters the hand loses to the word. *)
Definition removed (hand word : list Letter) : nat :=
  (length hand - length (discard hand word))%nat.

(** The start cell [player_turn] computes from the move. *)
Definition move_start (m : GameState.move) : CellCoord :=
  (GameState.row_input m - 1, GameState.col_input m - 1).

(** The direction [player_turn] computes from the move: anything but
    ["ACROSS"] is DOWN. *)
Definition move_direction (m : GameState.move) : Direction :=
  if decide (GameState.direction_input m = "ACROSS"%string) then ACROSS
  else DOWN.

(** The turn ends with the word placed. *)
Definition accepted (g : GameState.t) (m : GameState.move) : Prop :=
  (GameState.player_turn g m).1 = Ok GameState.WordPlaced.

(** A play that, if accepted, fills as many empty cells as it takes letters
    out of the hand. *)
Definition fair (g : GameState.t) (m : GameState.move) : Prop :=
  accepted g m →
  fresh (GameState.board g) (move_start m) (move_direction m) 0
        (letters (GameState.word m))
  = removed (GameState.human g) (letters (GameState.word m)).

(** Every play of the sequence is fair in the state it is made in. *)
Fixpoint fair_run (g : GameState.t) (moves : list GameState.move) : Prop :=
  match moves with
  | [] => True
  | m :: rest => fair g m ∧ fair_run (GameState.player_turn g m).2 rest
  end.

(** The board after ["A"] was placed in the last cell of the first row. *)
Definition board_A : Board.t :=
  (Board.place_word Board.init "A" (0, 14) ACROSS).2.

(** The board of scenario A after ["CAT"]. *)
Definition board_CAT : Board.t :=
  (Board.place_word Board.init "CAT" (7, 7) ACROSS).2.

(** The game after the opening draw when the shuffle leaves the pool in
    table order: the hand is Z, Y, Y, X, W, W, V. *)
Definition game_in_table_order : GameState.t :=
  (GameState.draw_player_tiles (GameState.init (λ pool, pool))).2.

(** * Scenario A *)

Example scenario_A_cat :
  Board.place_word Board.init "CAT" (7, 7) ACROSS =
  (Ok true,
   Board.mk 15 (<[7%nat := <[9%nat := "T"%char]> (<[8%nat := "A"%char]>
      (<[7%nat := "C"%char]> (replicate 15 Board.dot)))]>
      (Board._tiles Board.init))).
Proof. vm_compute. reflexivity. Qed.

(** * Python list indexing *)

Section indexing.
Context {A : Type}.
Implicit Types (l : list A) (i : Z) (k : nat) (x : A).

Lemma index_lt n i k : index n i = Ok k → (k < n)%nat.
Proof.
  unfold index. repeat case_decide; intros [= <-]; lia.
Qed.

Lemma index_nonneg n i : 0 ≤ i < Z.of_nat n → index n i = Ok (Z.to_nat i).
Proof. intros Hi. unfold index. by rewrite decide_True. Qed.

Lemma index_wrap n i :
  - Z.of_nat n ≤ i < 0 → index n i = Ok (Z.to_nat (i + Z.of_nat n)).
Proof.
  intros Hi. unfold index.
  rewrite decide_False by lia. by rewrite decide_True.
Qed.

Lemma index_raise n i :
  i < - Z.of_nat n ∨ Z.of_nat n ≤ i → index n i = Raise IndexError.
Proof. intros Hi. unfold index. by rewrite !decide_False by lia. Qed.

Lemma getitem_Ok l i x :
  getitem l i = Ok x ↔ ∃ k, index (length l) i = Ok k ∧ l !! k = Some x.
Proof.
  unfold getitem. split.
  - destruct (index (length l) i) as [k|e] eqn:Hk; cbn; [|done].
    destruct (l !! k) as [y|] eqn:Hy; [|done].
    intros [= ->]. eauto.
  - intros (k & -> & Hx). cbn. by rewrite Hx.
Qed.

Lemma getitem_index l i k :
  index (length l) i = Ok k → ∃ x, l !! k = Some x ∧ getitem l i = Ok x.
Proof.
  intros Hk. destruct (lookup_lt_is_Some_2 l k) as [x Hx].
  { by eapply index_lt. }
  exists x. split; [done|]. apply getitem_Ok. eauto.
Qed.

Lemma setitem_Ok l i x l' :
  setitem l i x = Ok l' ↔ ∃ k, index (length l) i = Ok k ∧ l' = <[k := x]> l.
Proof.
  unfold setitem. split.
  - destruct (index (length l) i) as [k|e]; cbn; [|done].
    intros [= <-]. eauto.
  - by intros (k & -> & ->).
Qed.

(** Assigning the element a slot already holds changes nothing. *)
Lemma setitem_same l i x : getitem l i = Ok x → setitem l i x = Ok l.
Proof.
  intros (k & Hk & Hx)%getitem_Ok. apply setitem_Ok.
  exists k. split; [done|]. by rewrite list_insert_id.
Qed.
End indexing.

(** * The grid *)

Section grid.
Implicit Types (b : Board.t) (tiles : list (list Letter)) (row : list Letter).

Lemma wf_init : Board.wf Board.init.
Proof.
  split; [done|]. cbn.
  apply Forall_replicate. by rewrite length_replicate.
Qed.

Lemma tile_Ok b r c x :
  Board.tile b (r, c) = Ok x ↔
  ∃ k j row, index (length (Board._tiles b)) r = Ok k ∧
             Board._tiles b !! k = Some row ∧
             index (length row) c = Ok j ∧ row !! j = Some x.
Proof.
  unfold Board.tile. split.
  - destruct (getitem (Board._tiles b) r) as [row|e] eqn:Hrow; cbn; [|done].
    apply getitem_Ok in Hrow as (k & Hk & Hrow).
    intros (j & Hj & Hx)%getitem_Ok. by exists k, j, row.
  - intros (k & j & row & Hk & Hrow & Hj & Hx).
    assert (getitem (Board._tiles b) r = Ok row) as ->
      by (apply getitem_Ok; eauto).
    cbn. apply getitem_Ok. eauto.
Qed.

Lemma set_tile_Ok b r c t b' :
  Board.set_tile b (r, c) t = Ok b' ↔
  ∃ k j row, index (length (Board._tiles b)) r = Ok k ∧
             Board._tiles b !! k = Some row ∧
             index (length row) c = Ok j ∧
             b' = Board.mk (Board.size b)
                    (<[k := <[j := t]> row]> (Board._tiles b)).
Proof.
  unfold Board.set_tile. split.
  - destruct (index (length (Board._tiles b)) r) as [k|e] eqn:Hk;
      cbn; [|done].
    destruct (getitem_index _ _ _ Hk) as (row & Hrow & ->). cbn.
    destruct (setitem row c t) as [row'|e] eqn:Hrow'; cbn; [|done].
    apply setitem_Ok in Hrow' as (j & Hj & ->).
    intros [= <-]. by exists k, j, row.
  - intros (k & j & row & Hk & Hrow & Hj & ->). rewrite Hk. cbn.
    assert (getitem (Board._tiles b) r = Ok row) as ->
      by (apply getitem_Ok; eauto).
    cbn. assert (setitem row c t = Ok (<[j := t]> row)) as ->
      by (apply setitem_Ok; eauto).
    done.
Qed.

(** Writing the letter a cell already holds leaves the board as it is,
    also through a negative index. *)
Lemma set_tile_same b pos x :
  Board.tile b pos = Ok x → Board.set_tile b pos x = Ok b.
Proof.
  destruct pos as [r c].
  intros (k & j & row & Hk & Hrow & Hj & Hx)%tile_Ok.
  apply set_tile_Ok. exists k, j, row. repeat split; try done.
  rewrite (list_insert_id row j x Hx), (list_insert_id _ k row Hrow).
  by destruct b.
Qed.

Lemma set_tile_wf b pos t b' :
  Board.wf b → Board.set_tile b pos t = Ok b' →
  Board.wf b' ∧ Board.size b' = Board.size b.
Proof.
  destruct pos as [r c].
  intros [Hlen Hrows] (k & j & row & Hk & Hrow & Hj & ->)%set_tile_Ok.
  split; [|done]. split; cbn.
  - by rewrite length_insert.
  - apply Forall_insert; [done|]. rewrite length_insert.
    by eapply (Forall_lookup_1 _ _ _ _ Hrows).
Qed.

(** A cell inside the bounds of a well-shaped board is read without
    wrap-around or exception. *)
Lemma tile_in_bounds b r c :
  Board.wf b → Board.in_bounds b (r, c) = true →
  ∃ row x, Board._tiles b !! Z.to_nat r = Some row ∧
           row !! Z.to_nat c = Some x ∧
           index (length (Board._tiles b)) r = Ok (Z.to_nat r) ∧
           index (length row) c = Ok (Z.to_nat c) ∧
           Board.tile b (r, c) = Ok x.
Proof.
  intros [Hlen Hrows] [Hr Hc]%andb_prop.
  apply bool_decide_eq_true in Hr, Hc.
  destruct (lookup_lt_is_Some_2 (Board._tiles b) (Z.to_nat r)) as [row Hrow];
    [lia|].
  pose proof (Forall_lookup_1 _ _ _ _ Hrows Hrow) as Hrl. cbn in Hrl.
  destruct (lookup_lt_is_Some_2 row (Z.to_nat c)) as [x Hx]; [lia|].
  exists row, x.
  assert (index (length (Board._tiles b)) r = Ok (Z.to_nat r))
    by (apply index_nonneg; lia).
  assert (index (length row) c = Ok (Z.to_nat c))
    by (apply index_nonneg; lia).
  repeat split; try done.
  apply tile_Ok. by exists (Z.to_nat r), (Z.to_nat c), row.
Qed.
End grid.

(** * Counting occupied cells *)

Section counting.
Context {A : Type} (P : A → Prop) `{!∀ x, Decision (P x)}.

Lemma filter_insert_length (l : list A) (j : nat) (x t : A) :
  l !! j = Some x →
  (length (filter P (<[j := t]> l)) + ind P x =
   length (filter P l) + ind P t)%nat.
Proof.
  intros Hx. pose proof (lookup_lt_Some _ _ _ Hx) as Hj.
  rewrite insert_take_drop by done.
  rewrite <- (take_drop_middle l j x Hx) at 3.
  rewrite !filter_app, !filter_cons, !length_app. unfold ind.
  destruct (decide (P x)), (decide (P t)); cbn; lia.
Qed.

Lemma concat_insert_length (ls : list (list A)) (k : nat) (row row' : list A) :
  ls !! k = Some row →
  (length (filter P (concat (<[k := row']> ls))) + length (filter P row) =
   length (filter P (concat ls)) + length (filter P row'))%nat.
Proof.
  intros Hrow. pose proof (lookup_lt_Some _ _ _ Hrow) as Hk.
  rewrite insert_take_drop by done.
  rewrite <- (take_drop_middle ls k row Hrow) at 3.
  rewrite !concat_app, !concat_cons, !filter_app, !length_app. lia.
Qed.
End counting.

Section grid_updates.
Implicit Types (b : Board.t) (row : list Letter) (x t : Letter).

(** A successful write changes the number of occupied cells by what the
    cell held and what it holds now. *)
Lemma set_tile_occupied b pos x t b' :
  Board.tile b pos = Ok x → Board.set_tile b pos t = Ok b' →
  (Board.occupied b' + ind (λ y, y ≠ Board.dot) x =
   Board.occupied b + ind (λ y, y ≠ Board.dot) t)%nat.
Proof.
  destruct pos as [r c].
  intros (k & j & row & Hk & Hrow & Hj & Hx)%tile_Ok
         (k' & j' & row' & Hk' & Hrow' & Hj' & ->)%set_tile_Ok.
  assert (k' = k) as -> by congruence.
  assert (row' = row) as -> by congruence.
  assert (j' = j) as -> by congruence.
  unfold Board.occupied. cbn.
  pose proof (concat_insert_length (λ y, y ≠ Board.dot) _ k row
                (<[j := t]> row) Hrow).
  pose proof (filter_insert_length (λ y, y ≠ Board.dot) row j x t Hx).
  lia.
Qed.

(** Inside the bounds, a write succeeds, is read back, and leaves every
    other cell inside the bounds alone. *)
Lemma set_tile_in_bounds b r c t :
  Board.wf b → Board.in_bounds b (r, c) = true →
  ∃ b', Board.set_tile b (r, c) t = Ok b' ∧
        Board.tile b' (r, c) = Ok t ∧
        ∀ r' c', Board.in_bounds b (r', c') = true → (r', c') ≠ (r, c) →
                 Board.tile b' (r', c') = Board.tile b (r', c').
Proof.
  intros Hwf Hin.
  destruct (tile_in_bounds b r c Hwf Hin) as (row & x & Hrow & Hx & Hk & Hj & _).
  set (b' := Board.mk (Board.size b)
               (<[Z.to_nat r := <[Z.to_nat c := t]> row]> (Board._tiles b))).
  assert (Hset : Board.set_tile b (r, c) t = Ok b').
  { apply set_tile_Ok. by exists (Z.to_nat r), (Z.to_nat c), row. }
  destruct (set_tile_wf _ _ _ _ Hwf Hset) as [Hwf' Hsz].
  pose proof (lookup_lt_Some _ _ _ Hrow) as Hlr.
  pose proof (lookup_lt_Some _ _ _ Hx) as Hlc.
  exists b'. split; [done|]. split.
  - apply tile_Ok. exists (Z.to_nat r), (Z.to_nat c), (<[Z.to_nat c := t]> row).
    cbn. rewrite !length_insert. repeat split; try done.
    + by rewrite list_lookup_insert_eq.
    + by rewrite list_lookup_insert_eq.
  - intros r' c' Hin' Hne.
    assert (Hin'' : Board.in_bounds b' (r', c') = true) by done.
    destruct (tile_in_bounds b r' c' Hwf Hin')
      as (row1 & x1 & Hrow1 & Hx1 & _ & _ & ->).
    destruct (tile_in_bounds b' r' c' Hwf' Hin'')
      as (row2 & x2 & Hrow2 & Hx2 & _ & _ & ->).
    f_equal. cbn in Hrow2.
    apply andb_prop in Hin as [Hr Hc], Hin' as [Hr' Hc'].
    apply bool_decide_eq_true in Hr, Hc, Hr', Hc'.
    destruct (decide (r' = r)) as [->|Hrr].
    + rewrite list_lookup_insert_eq in Hrow2 by done.
      injection Hrow2 as <-.
      assert (c' ≠ c) by congruence.
      rewrite list_lookup_insert_ne in Hx2 by lia. congruence.
    + rewrite list_lookup_insert_ne in Hrow2 by lia. congruence.
Qed.
End grid_updates.

(** * The two loops of [place_word] *)

Section loops.
Variables (start : CellCoord) (direction : Direction).
Implicit Types (b : Board.t) (word : list Letter) (i j : Z).

Local Abbreviation cell := (Board.cell start direction).

Lemma in_bounds_size b b' pos :
  Board.size b' = Board.size b →
  Board.in_bounds b' pos = Board.in_bounds b pos.
Proof. destruct pos. unfold Board.in_bounds. by intros ->. Qed.

Lemma is_empty_frame b b' pos :
  Board.size b' = Board.size b → Board.tile b' pos = Board.tile b pos →
  Board.is_empty b' pos = Board.is_empty b pos.
Proof.
  intros Hsz Ht. unfold Board.is_empty.
  by rewrite (in_bounds_size _ _ _ Hsz), Ht.
Qed.

(** Once a cell of the span is inside the bounds, the later ones are too,
    and they are other cells. *)
Lemma cell_later b i j :
  Board.in_bounds b (cell i) = true → i < j →
  along start direction + j < Board.size b →
  Board.in_bounds b (cell j) = true ∧ cell j ≠ cell i.
Proof.
  destruct start as [r0 c0], direction; cbn;
    intros [Hr Hc]%andb_prop Hij Hj;
    apply bool_decide_eq_true in Hr, Hc;
    (split; [apply andb_true_intro; split; apply bool_decide_eq_true; lia
            | intros [=]; lia]).
Qed.

(** [check] and [fresh] only look at the cells of the span. *)
Lemma check_frame b b' word i :
  Board.size b' = Board.size b →
  (∀ j, i ≤ j < i + Z.of_nat (length word) →
        Board.tile b' (cell j) = Board.tile b (cell j)) →
  Board.check b' start direction i word = Board.check b start direction i word.
Proof.
  intros Hsz. revert i. induction word as [|letter rest IH]; intros i Ht;
    [done|]. cbn [Board.check].
  rewrite (is_empty_frame b b' (cell i) Hsz) by (apply Ht; cbn; lia).
  rewrite (Ht i) by (cbn; lia).
  rewrite IH; [done|]. intros j Hj. apply Ht. cbn. lia.
Qed.

Lemma fresh_frame b b' word i :
  Board.size b' = Board.size b →
  (∀ j, i ≤ j < i + Z.of_nat (length word) →
        Board.tile b' (cell j) = Board.tile b (cell j)) →
  fresh b' start direction i word = fresh b start direction i word.
Proof.
  intros Hsz. revert i. induction word as [|letter rest IH]; intros i Ht;
    [done|]. cbn [fresh].
  rewrite (is_empty_frame b b' (cell i) Hsz) by (apply Ht; cbn; lia).
  rewrite IH; [done|]. intros j Hj. apply Ht. cbn. lia.
Qed.

(** What passing the check at one cell means. *)
Lemma check_cons_true b i letter rest :
  Board.check b start direction i (letter :: rest) = Ok true →
  Board.check b start direction (i + 1) rest = Ok true ∧
  ((Board.in_bounds b (cell i) = true ∧ Board.tile b (cell i) = Ok Board.dot)
   ∨ (Board.is_empty b (cell i) = Ok false ∧
      Board.tile b (cell i) = Ok letter)).
Proof.
  cbn [Board.check]. unfold Board.is_empty.
  destruct (Board.in_bounds b (cell i)) eqn:Hin; cbn.
  - destruct (Board.tile b (cell i)) as [x|e] eqn:Hx; cbn; [|done].
    case_bool_decide as Hd; cbn.
    + subst x. eauto.
    + case_bool_decide as Hl; cbn; [|done]. subst x.
      intros ->. split; [done|]. by right.
  - destruct (Board.tile b (cell i)) as [x|e] eqn:Hx; cbn; [|done].
    case_bool_decide as Hl; cbn; [|done]. subst x. eauto.
Qed.

(** After a check that ran to its end, the writing loop cannot raise; it
    writes the letters that go to cells inside the bounds, and rewrites in
    place the ones a negative index reaches. *)
Lemma write_after_check word : ∀ i b,
  Board.wf b →
  along start direction + i + Z.of_nat (length word) ≤ Board.size b →
  Board.check b start direction i word = Ok true →
  ∃ b', Board.write b start direction i word = (Ok tt, b') ∧
        Board.wf b' ∧ Board.size b' = Board.size b ∧
        Board.occupied b' =
          (Board.occupied b + fresh b start direction i word)%nat ∧
        (∀ pos, Board.in_bounds b pos = true →
                (∀ j, i ≤ j < i + Z.of_nat (length word) → cell j ≠ pos) →
                Board.tile b' pos = Board.tile b pos) ∧
        (∀ (n : nat) letter, word !! n = Some letter →
                Board.in_bounds b (cell (i + Z.of_nat n)) = true →
                Board.tile b' (cell (i + Z.of_nat n)) = Ok letter).
Proof.
  induction word as [|letter rest IH]; intros i b Hwf Hfit Hchk.
  { exists b. cbn. rewrite Nat.add_0_r.
    split; [done|]. split; [done|]. split; [done|]. split; [done|].
    split; [done|]. by intros []. }
  apply check_cons_true in Hchk as [Hrest Hcase].
  cbn [length] in Hfit.
  destruct (Board.in_bounds b (cell i)) eqn:Hin.
  - assert (∃ x, Board.tile b (cell i) = Ok x ∧
              (match Board.is_empty b (cell i) with
               | Ok true => ind (λ y, y ≠ Board.dot) letter
               | _ => 0%nat
               end + ind (λ y, y ≠ Board.dot) x
               = ind (λ y, y ≠ Board.dot) letter)%nat) as (x & Hx & Hind).
    { destruct Hcase as [[_ Hx]|[He Hx]].
      - exists Board.dot. split; [done|].
        unfold Board.is_empty. rewrite Hin, Hx. cbn.
        rewrite bool_decide_eq_true_2 by done.
        unfold ind at 2. rewrite decide_False by (by intros []). lia.
      - exists letter. split; [done|]. rewrite He. lia. }
    destruct (cell i) as [r c] eqn:Hci.
    destruct (set_tile_in_bounds b r c letter Hwf Hin)
      as (b1 & Hset & Hread & Hother).
    destruct (set_tile_wf _ _ _ _ Hwf Hset) as [Hwf1 Hsz1].
    pose proof (set_tile_occupied _ _ _ _ _ Hx Hset) as Hocc.
    assert (Hframe : ∀ j, i + 1 ≤ j < i + 1 + Z.of_nat (length rest) →
              Board.tile b1 (cell j) = Board.tile b (cell j)).
    { intros j Hj.
      destruct (cell_later b i j) as [Hinj Hne]; [by rewrite Hci|lia|lia|].
      rewrite Hci in Hne. destruct (cell j) as [r' c']. by apply Hother. }
    destruct (IH (i + 1) b1) as (b' & Hw & Hwf' & Hsz' & Hocc' & Ha & Hb);
      [done|lia|by rewrite (check_frame b b1)|].
    exists b'. cbn [Board.write fresh]. rewrite Hci, Hset.
    split; [done|]. split; [done|]. split; [congruence|].
    split; [|split].
    + rewrite Hocc', (fresh_frame b b1) by done.
      destruct (Board.is_empty b (r, c)) as [[]|]; lia.
    + intros pos Hpos Hout.
      rewrite Ha.
      * destruct pos as [r' c']. apply Hother; [done|].
        intros Heq. apply (Hout i); [cbn; lia|]. by rewrite Hci.
      * by rewrite (in_bounds_size b b1).
      * intros j Hj. apply Hout. cbn [length]. lia.
    + intros [|n] l Hl Hinn.
      * injection Hl as <-. rewrite Z.add_0_r, Hci.
        rewrite Ha; [done|by rewrite (in_bounds_size b b1)|].
        intros j Hj. rewrite <- Hci.
        apply (cell_later b i j); [by rewrite Hci|lia|lia].
      * cbn in Hl.
        replace (i + Z.of_nat (S n)) with (i + 1 + Z.of_nat n) in * by lia.
        apply Hb; [done|]. by rewrite (in_bounds_size b b1).
  - destruct Hcase as [[? _]|[He Hx]]; [done|].
    destruct (IH (i + 1) b) as (b' & Hw & Hwf' & Hsz' & Hocc' & Ha & Hb);
      [done|lia|done|].
    exists b'. cbn [Board.write fresh].
    rewrite (set_tile_same _ _ _ Hx), He.
    split; [done|]. split; [done|]. split; [done|].
    split; [|split].
    + rewrite Hocc'. lia.
    + intros pos Hpos Hout. apply Ha; [done|].
      intros j Hj. apply Hout. cbn [length]. lia.
    + intros [|n] l Hl Hinn.
      * rewrite Z.add_0_r in Hinn. congruence.
      * cbn in Hl.
        replace (i + Z.of_nat (S n)) with (i + 1 + Z.of_nat n) in * by lia.
        by apply Hb.
Qed.
End loops.

(** * [place_word] *)

Section place_word.
Variables (start : CellCoord) (direction : Direction).
Implicit Types (b : Board.t) (word : string) (i j : Z).

Local Abbreviation cell := (Board.cell start direction).

Lemma length_letters word : Z.of_nat (length (letters word)) = len word.
Proof.
  unfold letters, len. f_equal.
  induction word as [|a word IH]; cbn; [done|]. by rewrite IH.
Qed.

Lemma letters_nil word : letters word = [] → word = ""%string.
Proof. by destruct word. Qed.

(** The body of [place_word] with the two directions read together. *)
Lemma place_word_unfold b word :
  Board.place_word b word start direction =
  if decide (along start direction + len word > Board.size b)
  then (Ok false, b)
  else match Board.check b start direction 0 (letters word) with
       | Raise e => (Raise e, b)
       | Ok false => (Ok false, b)
       | Ok true =>
           match Board.write b start direction 0 (letters word) with
           | (Ok _, b') => (Ok true, b')
           | (Raise e, b') => (Raise e, b')
           end
       end.
Proof.
  unfold Board.place_word, along. destruct direction; by case_decide.
Qed.

(** Over cells inside the bounds the check cannot raise, and it stops at a
    conflict. *)
Lemma check_conflict b (w : list Letter) : ∀ i,
  Board.wf b →
  (∀ (n : nat), (n < length w)%nat →
     Board.in_bounds b (cell (i + Z.of_nat n)) = true) →
  (∃ (n : nat) letter x, w !! n = Some letter ∧
     Board.tile b (cell (i + Z.of_nat n)) = Ok x ∧
     x ≠ Board.dot ∧ x ≠ letter) →
  Board.check b start direction i w = Ok false.
Proof.
  induction w as [|l rest IH]; intros i Hwf Hin (n & letter & x & Hn & Hx & Hd & Hl).
  { done. }
  cbn [Board.check]. unfold Board.is_empty.
  pose proof (Hin 0%nat ltac:(cbn; lia)) as Hin0.
  rewrite Z.add_0_r in Hin0. rewrite Hin0.
  destruct (cell i) as [r c] eqn:Hci.
  destruct (tile_in_bounds b r c Hwf Hin0) as (_ & y & _ & _ & _ & _ & Hy).
  rewrite Hy. cbn.
  assert (Hnext : ∀ n' : nat, (n' < length rest)%nat →
            Board.in_bounds b (cell (i + 1 + Z.of_nat n')) = true).
  { intros n' Hn'.
    replace (i + 1 + Z.of_nat n') with (i + Z.of_nat (S n')) by lia.
    apply Hin. cbn. lia. }
  destruct n as [|n].
  - injection Hn as ->. rewrite Z.add_0_r, Hci, Hy in Hx.
    injection Hx as ->.
    by rewrite !bool_decide_eq_false_2.
  - assert (Board.check b start direction (i + 1) rest = Ok false) as ->.
    { apply IH; [done|done|]. exists n, letter, x.
      by replace (i + 1 + Z.of_nat n) with (i + Z.of_nat (S n)) by lia. }
    repeat (case_bool_decide; cbn); done.
Qed.

(** Over cells inside the bounds whose letters agree with the word the
    check runs to its end. *)
Lemma check_agree b (w : list Letter) : ∀ i,
  Board.wf b →
  (∀ (n : nat), (n < length w)%nat →
     Board.in_bounds b (cell (i + Z.of_nat n)) = true) →
  (∀ (n : nat) letter x, w !! n = Some letter →
     Board.tile b (cell (i + Z.of_nat n)) = Ok x →
     x ≠ Board.dot → x = letter) →
  Board.check b start direction i w = Ok true.
Proof.
  induction w as [|l rest IH]; intros i Hwf Hin Hag; [done|].
  cbn [Board.check]. unfold Board.is_empty.
  pose proof (Hin 0%nat ltac:(cbn; lia)) as Hin0.
  rewrite Z.add_0_r in Hin0. rewrite Hin0.
  destruct (cell i) as [r c] eqn:Hci.
  destruct (tile_in_bounds b r c Hwf Hin0) as (_ & y & _ & _ & _ & _ & Hy).
  rewrite Hy. cbn.
  assert (Board.check b start direction (i + 1) rest = Ok true) as ->.
  { apply IH; [done| |].
    - intros n' Hn'.
      replace (i + 1 + Z.of_nat n') with (i + Z.of_nat (S n')) by lia.
      apply Hin. cbn. lia.
    - intros n letter x Hn.
      replace (i + 1 + Z.of_nat n) with (i + Z.of_nat (S n)) by lia.
      by apply Hag. }
  case_bool_decide as Hd; cbn; [done|].
  rewrite bool_decide_eq_true_2; [done|].
  apply (Hag 0%nat l y); [done| |done].
  by rewrite Z.add_0_r, Hci.
Qed.

(** Over cells that hold the word already, the check runs to its end and
    the writes change nothing, whatever the shape of the board. *)
Lemma check_write_match b (w : list Letter) : ∀ i,
  (∀ (n : nat) letter, w !! n = Some letter →
     Board.tile b (cell (i + Z.of_nat n)) = Ok letter) →
  Board.check b start direction i w = Ok true ∧
  Board.write b start direction i w = (Ok tt, b).
Proof.
  induction w as [|l rest IH]; intros i Hm; [done|].
  pose proof (Hm 0%nat l eq_refl) as H0. rewrite Z.add_0_r in H0.
  destruct (IH (i + 1)) as [Hc Hw].
  { intros n letter Hn.
    replace (i + 1 + Z.of_nat n) with (i + Z.of_nat (S n)) by lia.
    by apply Hm. }
  cbn [Board.check Board.write].
  rewrite (set_tile_same _ _ _ H0), Hw, Hc, H0. split; [|done].
  unfold Board.is_empty. rewrite H0.
  destruct (Board.in_bounds b (cell i)); cbn;
    rewrite ?bool_decide_eq_true_2 by done; by repeat case_bool_decide.
Qed.

(** A span of a non-empty word that is on the board ends on the board. *)
Lemma span_on_board_fits b word :
  span_on_board b word start direction → word ≠ ""%string →
  along start direction + len word ≤ Board.size b.
Proof.
  intros Hon Hne. rewrite <- length_letters.
  destruct (letters word) as [|l w] eqn:Hw using rev_ind.
  { by apply letters_nil in Hw. }
  clear IHw.
  specialize (Hon (length w) l).
  rewrite Hw, lookup_app_r, Nat.sub_diag in Hon by done.
  specialize (Hon eq_refl). rewrite length_app. cbn [length].
  unfold Board.cell, Board.in_bounds, along in *.
  destruct start as [r0 c0], direction; cbn in *;
    apply andb_prop in Hon as [Hr Hc];
    apply bool_decide_eq_true in Hr, Hc; lia.
Qed.
End place_word.

Section place_word_shape.
Variables (start : CellCoord) (direction : Direction).
Implicit Types (b : Board.t) (word : string).

Lemma index_range n i k : index n i = Ok k → - Z.of_nat n ≤ i < Z.of_nat n.
Proof. unfold index. repeat case_decide; intros [=]; lia. Qed.

Lemma write_wf (w : list Letter) : ∀ i b,
  Board.wf b →
  Board.wf (Board.write b start direction i w).2 ∧
  Board.size (Board.write b start direction i w).2 = Board.size b.
Proof.
  induction w as [|l rest IH]; intros i b Hwf; [done|].
  cbn [Board.write].
  destruct (Board.set_tile b _ l) as [b1|e] eqn:Hset; [|done].
  destruct (set_tile_wf _ _ _ _ Hwf Hset) as [Hwf1 Hsz1].
  destruct (IH (i + 1) b1 Hwf1) as [? ?]. split; [done|congruence].
Qed.

(** Every board [place_word] leaves behind has the shape of the board it
    was given. *)
Lemma place_word_wf b word :
  Board.wf b →
  Board.wf (Board.place_word b word start direction).2 ∧
  Board.size (Board.place_word b word start direction).2 = Board.size b.
Proof.
  intros Hwf. rewrite place_word_unfold. case_decide; [done|].
  destruct (Board.check b start direction 0 (letters word)) as [[]|e];
    [|done|done].
  pose proof (write_wf (letters word) 0 b Hwf) as Hw.
  by destruct (Board.write b start direction 0 (letters word)) as [[?|?] ?].
Qed.

(** A span of a non-empty word whose cells can all be read ends at or
    before the last row or column. *)
Lemma span_matches_fits b word :
  Board.wf b → span_matches b word start direction → word ≠ ""%string →
  along start direction + len word ≤ Board.size b.
Proof.
  intros [Hlen Hrows] Hm Hne. rewrite <- length_letters.
  destruct (letters word) as [|l w] eqn:Hw using rev_ind.
  { by apply letters_nil in Hw. }
  clear IHw. specialize (Hm (length w) l).
  rewrite Hw, lookup_app_r, Nat.sub_diag in Hm by done.
  specialize (Hm eq_refl). rewrite length_app. cbn [length].
  destruct start as [r0 c0].
  assert (∃ r c, Board.cell (r0, c0) direction (Z.of_nat (length w)) = (r, c)
                 ∧ along (r0, c0) direction + Z.of_nat (length w) =
                   match direction with ACROSS => c | DOWN => r end)
    as (r & c & Hcell & Hal) by (destruct direction; cbn; eauto).
  rewrite Hcell in Hm.
  apply tile_Ok in Hm as (k & j & row & Hk & Hrow & Hj & _).
  pose proof (Forall_lookup_1 _ _ _ _ Hrows Hrow) as Hrl. cbn in Hrl.
  apply index_range in Hk, Hj. destruct direction; lia.
Qed.
End place_word_shape.

Lemma wf_board_A : Board.wf board_A.
Proof. apply place_word_wf, wf_init. Qed.

Lemma wf_board_CAT : Board.wf board_CAT.
Proof. apply place_word_wf, wf_init. Qed.

(** * The claims about [place_word] *)

(** C1, at the inputs where the code departs from it: with ["A"] in cell
    (0, 14), placing ["AB"] ACROSS from column -1 has its first cell outside
    the board, yet [place_word] returns true and writes ["B"] into the empty
    cell (0, 0); and on the fresh board, placing ["A"] at row 15 raises
    [IndexError] instead of returning false. *)
Theorem C1_out_of_bounds_not_rejected :
  Board.in_bounds board_A (Board.cell (0, -1) ACROSS 0) = false ∧
  Board.tile board_A (0, 0) = Ok Board.dot ∧
  (Board.place_word board_A "AB" (0, -1) ACROSS).1 = Ok true ∧
  Board.tile (Board.place_word board_A "AB" (0, -1) ACROSS).2 (0, 0)
    = Ok "B"%char ∧
  Board.in_bounds Board.init (Board.cell (15, 0) ACROSS 0) = false ∧
  Board.place_word Board.init "A" (15, 0) ACROSS
    = (Raise IndexError, Board.init).
Proof. vm_compute. repeat split. Qed.

(** The part of C1 the code does implement: a word that would run past the
    last column (ACROSS) or row (DOWN) is rejected and nothing is written. *)
Lemma place_word_overflow b word start direction :
  along start direction + len word > Board.size b →
  Board.place_word b word start direction = (Ok false, b).
Proof. intros Hover. rewrite place_word_unfold. by rewrite decide_True. Qed.

(** C3: on a well-shaped board, a word whose span is on the board and which
    differs from the letter some span cell holds is rejected, and the board
    is left exactly as it was. *)
Theorem C3_conflict_rejected b word start direction :
  Board.wf b →
  span_on_board b word start direction →
  span_conflicts b word start direction →
  Board.place_word b word start direction = (Ok false, b).
Proof.
  intros Hwf Hon Hc. rewrite place_word_unfold.
  assert (Hne : word ≠ ""%string).
  { intros ->. by destruct Hc as ([|?] & ? & ? & ? & _). }
  rewrite decide_False
    by (pose proof (span_on_board_fits _ _ _ _ Hon Hne); lia).
  rewrite check_conflict; [done|done| |].
  - intros n Hn. destruct (lookup_lt_is_Some_2 (letters word) n Hn) as [l Hl].
    rewrite Z.add_0_l. by eapply Hon.
  - destruct Hc as (n & l & x & ? & ? & ? & ?). exists n, l, x.
    by rewrite Z.add_0_l.
Qed.

Lemma C3_conflict_rejected_witness :
  Board.place_word board_CAT "DOG" (7, 7) ACROSS = (Ok false, board_CAT).
Proof.
  apply C3_conflict_rejected.
  - exact wf_board_CAT.
  - intros [|[|[|n]]] l Hl; vm_compute in Hl; try discriminate; reflexivity.
  - exists 0%nat, "D"%char, "C"%char. vm_compute.
    repeat split; discriminate.
Defined.

(** C4 as stated fails for the empty word: its span has no cell, so it lies
    on the board and agrees with it, yet from column 16 the length test
    rejects it. *)
Lemma C4_empty_word_rejected :
  Board.wf Board.init ∧
  span_on_board Board.init "" (0, 16) ACROSS ∧
  span_agrees Board.init "" (0, 16) ACROSS ∧
  Board.place_word Board.init "" (0, 16) ACROSS = (Ok false, Board.init).
Proof.
  split; [exact wf_init|]. split; [by intros [|?]|]. split; [by intros [|?]|].
  reflexivity.
Qed.

(** C4, amended: on a well-shaped board, a word whose span is on the board
    and agrees with every occupied span cell (and, if the word is empty,
    whose start has its advancing coordinate at most [size]) is accepted;
    afterwards every span cell holds the word's letter and every other cell
    of the board reads as before. *)
Theorem C4_place_word_writes b word start direction :
  Board.wf b →
  span_on_board b word start direction →
  span_agrees b word start direction →
  (word = ""%string → along start direction ≤ Board.size b) →
  ∃ b', Board.place_word b word start direction = (Ok true, b') ∧
        Board.wf b' ∧ Board.size b' = Board.size b ∧
        (∀ (n : nat) letter, letters word !! n = Some letter →
           Board.tile b' (Board.cell start direction (Z.of_nat n))
             = Ok letter) ∧
        (∀ pos, Board.in_bounds b pos = true →
           (∀ (n : nat), (n < length (letters word))%nat →
              Board.cell start direction (Z.of_nat n) ≠ pos) →
           Board.tile b' pos = Board.tile b pos).
Proof.
  intros Hwf Hon Hag Hempty.
  assert (Hfit : along start direction + len word ≤ Board.size b).
  { destruct (decide (word = ""%string)) as [->|Hne].
    - unfold len. cbn. specialize (Hempty eq_refl). lia.
    - by apply span_on_board_fits. }
  assert (Hchk : Board.check b start direction 0 (letters word) = Ok true).
  { apply check_agree; [done| |].
    - intros n Hn. destruct (lookup_lt_is_Some_2 (letters word) n Hn) as [l Hl].
      rewrite Z.add_0_l. by eapply Hon.
    - intros n l x. rewrite Z.add_0_l. apply Hag. }
  destruct (write_after_check start direction (letters word) 0 b)
    as (b' & Hw & Hwf' & Hsz & _ & Ha & Hb);
    [done|rewrite length_letters; lia|done|].
  exists b'. rewrite place_word_unfold, decide_False, Hchk, Hw by lia.
  split; [done|]. split; [done|]. split; [done|]. split.
  - intros n l Hl. specialize (Hb n l Hl). rewrite Z.add_0_l in Hb.
    apply Hb. by eapply Hon.
  - intros pos Hpos Hout. apply Ha; [done|].
    intros j Hj. replace j with (Z.of_nat (Z.to_nat j)) by lia.
    apply Hout. lia.
Qed.

Lemma C4_place_word_writes_witness :
  ∃ b', Board.place_word board_CAT "TAR" (7, 9) DOWN = (Ok true, b') ∧
        Board.wf b' ∧ Board.size b' = Board.size board_CAT ∧
        (∀ (n : nat) letter, letters "TAR" !! n = Some letter →
           Board.tile b' (Board.cell (7, 9) DOWN (Z.of_nat n)) = Ok letter) ∧
        (∀ pos, Board.in_bounds board_CAT pos = true →
           (∀ (n : nat), (n < length (letters "TAR"))%nat →
              Board.cell (7, 9) DOWN (Z.of_nat n) ≠ pos) →
           Board.tile b' pos = Board.tile board_CAT pos).
Proof.
  apply C4_place_word_writes.
  - exact wf_board_CAT.
  - intros [|[|[|n]]] l Hl; vm_compute in Hl; try discriminate; reflexivity.
  - intros [|[|[|n]]] l x Hl Ht Hx; vm_compute in Hl, Ht;
      try discriminate; injection Hl as <-; injection Ht as <-;
      [reflexivity|by destruct Hx|by destruct Hx].
  - discriminate.
Defined.

(** C8 as stated fails for the empty word: the board matches its empty span,
    yet from column 16 the call returns false. *)
Lemma C8_empty_word_rejected :
  span_matches Board.init "" (0, 16) ACROSS ∧
  Board.place_word Board.init "" (0, 16) ACROSS = (Ok false, Board.init).
Proof. split; [by intros [|?]|reflexivity]. Qed.

(** C8, amended: on a well-shaped board that already holds the word along
    the span (and, if the word is empty, with the advancing coordinate of
    the start at most [size]), [place_word] returns true, and true again
    when repeated; the board is the same before, between and after. *)
Theorem C8_replay b word start direction :
  Board.wf b →
  span_matches b word start direction →
  (word = ""%string → along start direction ≤ Board.size b) →
  let first := Board.place_word b word start direction in
  let second := Board.place_word first.2 word start direction in
  first.1 = Ok true ∧ second.1 = Ok true ∧ second.2 = first.2 ∧ first.2 = b.
Proof.
  intros Hwf Hm Hempty.
  assert (Hfit : along start direction + len word ≤ Board.size b).
  { destruct (decide (word = ""%string)) as [->|Hne].
    - unfold len. cbn. specialize (Hempty eq_refl). lia.
    - by apply span_matches_fits. }
  assert (Board.place_word b word start direction = (Ok true, b)) as Hp.
  { rewrite place_word_unfold, decide_False by lia.
    destruct (check_write_match start direction b (letters word) 0) as [-> ->];
      [|done].
    intros n l. rewrite Z.add_0_l. apply Hm. }
  cbn zeta. rewrite Hp. cbn [fst snd]. by rewrite Hp.
Qed.

Lemma C8_replay_witness :
  let first := Board.place_word board_CAT "CAT" (7, 7) ACROSS in
  let second := Board.place_word first.2 "CAT" (7, 7) ACROSS in
  first.1 = Ok true ∧ second.1 = Ok true ∧ second.2 = first.2 ∧
  first.2 = board_CAT.
Proof.
  apply C8_replay.
  - exact wf_board_CAT.
  - intros [|[|[|n]]] l Hl; vm_compute in Hl; try discriminate;
      injection Hl as <-; reflexivity.
  - discriminate.
Defined.

(** C10: with the empty word, [place_word] returns true and leaves the board
    as it is whenever the advancing coordinate of the start (column for
    ACROSS, row for DOWN) is at most [size]; nothing else about the start
    or the board is looked at. *)
Theorem C10_empty_word b start direction :
  along start direction ≤ Board.size b →
  Board.place_word b "" start direction = (Ok true, b).
Proof.
  intros Hle. rewrite place_word_unfold, decide_False; [done|].
  unfold len. cbn. lia.
Qed.

Lemma C10_empty_word_witness :
  Board.in_bounds board_CAT (-40, 15) = false ∧
  Board.place_word board_CAT "" (-40, 15) ACROSS = (Ok true, board_CAT).
Proof.
  split; [reflexivity|]. apply C10_empty_word. vm_compute. discriminate.
Defined.

(** C7 as stated fails when the word contains the empty marker: ["."] placed
    on the empty cell (0, 0) is accepted, one letter lands on a previously
    empty cell, and the number of occupied cells stays 0. *)
Lemma C7_dot_not_counted :
  let after := Board.place_word Board.init "." (0, 0) ACROSS in
  after.1 = Ok true ∧
  landed Board.init (0, 0) ACROSS 0 (letters ".") = 1%nat ∧
  Board.occupied Board.init = 0%nat ∧
  Board.occupied after.2 = 0%nat.
Proof. vm_compute. repeat split. Qed.

(** C7, amended: on a well-shaped board, every accepted [place_word] raises
    the number of occupied cells by exactly the number of letters other than
    ["."] that go to previously empty cells; letters that go to cells
    already holding them add nothing. *)
Theorem C7_occupied_after_place b word start direction b' :
  Board.wf b →
  Board.place_word b word start direction = (Ok true, b') →
  Board.occupied b' =
    (Board.occupied b + fresh b start direction 0 (letters word))%nat.
Proof.
  intros Hwf. rewrite place_word_unfold. case_decide as Hfit; [done|].
  destruct (Board.check b start direction 0 (letters word)) as [[]|e] eqn:Hchk;
    [|done|done].
  destruct (write_after_check start direction (letters word) 0 b)
    as (b1 & Hw & _ & _ & Hocc & _);
    [done|rewrite length_letters; lia|done|].
  rewrite Hw. by intros [= <-].
Qed.

Lemma C7_occupied_after_place_witness :
  Board.occupied (Board.place_word board_CAT "TAR" (7, 9) DOWN).2 =
    (Board.occupied board_CAT
     + fresh board_CAT (7, 9)%Z DOWN 0%Z (letters "TAR"))%nat.
Proof.
  apply C7_occupied_after_place; [exact wf_board_CAT|reflexivity].
Defined.

(** Without the empty marker in the word, the letters counted by [fresh] are
    all the letters that go to previously empty cells. *)
Lemma fresh_landed b start direction (w : list Letter) : ∀ i,
  Board.dot ∉ w →
  fresh b start direction i w = landed b start direction i w.
Proof.
  induction w as [|l rest IH]; intros i Hd; [done|].
  apply not_elem_of_cons in Hd as [Hl Hrest]. cbn [fresh landed].
  rewrite IH by done. unfold ind. by rewrite decide_True by done.
Qed.

(** * The tile pool *)

Section pool.
Implicit Types (pool drawn : list Letter) (k : nat) (num : Z).

Lemma pop_snoc pool x : TileManager.pop (pool ++ [x]) = Ok (x, pool).
Proof. unfold TileManager.pop. by rewrite last_snoc, removelast_last. Qed.

Lemma draw_loop_nil k : TileManager.draw_loop [] k = (Ok [], []).
Proof. induction k as [|k IH]; [done|]. by cbn. Qed.

Lemma draw_loop_snoc pool x k :
  TileManager.draw_loop (pool ++ [x]) (S k) =
  let '(r, pool') := TileManager.draw_loop pool k in
  (xs ← r; Ok (x :: xs), pool').
Proof.
  cbn [TileManager.draw_loop]. rewrite pop_snoc. by destruct pool.
Qed.

(** The comprehension pops from the end until the iterations or the pool
    run out, and never raises. *)
Lemma draw_loop_spec k : ∀ pool,
  TileManager.draw_loop pool k =
  (Ok (take k (reverse pool)), take (length pool - k) pool).
Proof.
  induction k as [|k IH]; intros pool.
  { cbn. by rewrite Nat.sub_0_r, firstn_all. }
  destruct pool as [|x pool _] using rev_ind.
  { by rewrite draw_loop_nil. }
  rewrite draw_loop_snoc, IH, reverse_snoc, length_app. cbn.
  f_equal. replace (length pool + 1 - S k)%nat with (length pool - k)%nat
    by lia.
  by rewrite take_app_le by lia.
Qed.

Lemma draw_tiles_spec pool num :
  TileManager.draw_tiles pool num =
  (Ok (take (Z.to_nat num) (reverse pool)),
   take (length pool - Z.to_nat num) pool).
Proof. apply draw_loop_spec. Qed.

(** One draw never raises and conserves tiles. *)
Lemma draw_tiles_conserves pool num :
  ∃ drawn pool', TileManager.draw_tiles pool num = (Ok drawn, pool') ∧
                 (length pool' + length drawn = length pool)%nat.
Proof.
  eexists _, _. split; [apply draw_tiles_spec|].
  rewrite !length_take, length_reverse. lia.
Qed.

Lemma length_unshuffled : length TileManager.unshuffled = 98%nat.
Proof. reflexivity. Qed.

(** However the pool is shuffled, it starts with 98 tiles. *)
Lemma length_initialize_tile_pool (shuffle : list Letter → list Letter) :
  (∀ l, shuffle l ≡ₚ l) →
  length (TileManager.initialize_tile_pool shuffle) = 98%nat.
Proof.
  intros Hperm. unfold TileManager.initialize_tile_pool.
  by rewrite (Permutation_length (Hperm _)).
Qed.
End pool.

(** C5: a draw of more tiles than the [k] the pool holds returns exactly
    those [k] tiles (last one first) and leaves the pool empty; a further
    draw of one tile returns the empty list; neither raises. *)
Theorem C5_draw_exhaustion (pool : list Letter) (n : Z) :
  Z.of_nat (length pool) < n →
  ∃ drawn, TileManager.draw_tiles pool n = (Ok drawn, []) ∧
           length drawn = length pool ∧
           drawn = reverse pool ∧
           TileManager.draw_tiles [] 1 = (Ok [], []).
Proof.
  intros Hk. exists (reverse pool). rewrite draw_tiles_spec.
  rewrite take_ge by (rewrite length_reverse; lia).
  replace (length pool - Z.to_nat n)%nat with 0%nat by lia.
  rewrite length_reverse. by destruct pool.
Qed.

Lemma C5_draw_exhaustion_witness :
  ∃ drawn,
    TileManager.draw_tiles (TileManager.initialize_tile_pool reverse) 200
      = (Ok drawn, []) ∧
    length drawn = length (TileManager.initialize_tile_pool reverse) ∧
    drawn = reverse (TileManager.initialize_tile_pool reverse) ∧
    TileManager.draw_tiles [] 1 = (Ok [], []).
Proof. apply C5_draw_exhaustion. vm_compute. reflexivity. Defined.

(** C6: at every point of every sequence of draws from a pool, no draw has
    raised, and the tiles left in the pool plus all the tiles returned so far
    number as many as the pool held at the start. *)
Theorem C6_draws_conserve (pool : list Letter) (nums : list Z) (point : nat) :
  ∃ returned pool',
    TileManager.draws pool (take point nums) = (Ok returned, pool') ∧
    (length pool' + length returned = length pool)%nat.
Proof.
  revert pool. induction (take point nums) as [|num rest IH]; intros pool.
  { exists [], pool. cbn. split; [done|lia]. }
  destruct (draw_tiles_conserves pool num) as (drawn & pool1 & Hd & Hl).
  destruct (IH pool1) as (returned & pool2 & Hr & Hl2).
  exists (drawn ++ returned), pool2. cbn [TileManager.draws].
  rewrite Hd, Hr. split; [done|]. rewrite length_app. lia.
Qed.

(** Scenario B: the freshly built pool holds 98 tiles; a draw of 200 takes
    them all. *)
Example scenario_B :
  let pool := TileManager.initialize_tile_pool reverse in
  length pool = 98%nat ∧
  length (TileManager.draws pool [200; 1]).2 = 0%nat.
Proof. vm_compute. done. Qed.

(** * The hand update *)

Section hand.
Implicit Types (hand word : list Letter) (x : Letter).

Lemma without_first_cons hand y x :
  without_first (y :: hand) x =
  if decide (y = x) then hand else y :: without_first hand x.
Proof.
  unfold without_first. cbn [list_find]. case_decide; [done|].
  by destruct (list_find (λ y, y = x) hand) as [[i z]|].
Qed.

Lemma without_first_absent hand x : x ∉ hand → without_first hand x = hand.
Proof.
  induction hand as [|y hand IH]; [done|].
  intros [Hy Hh]%not_elem_of_cons. rewrite without_first_cons.
  rewrite decide_False by done. by rewrite IH.
Qed.

(** [list.remove] does not raise on a letter the hand holds, and takes out
    its first occurrence. *)
Lemma remove_present hand x :
  x ∈ hand → GameState.remove hand x = Ok (without_first hand x).
Proof.
  induction hand as [|y hand IH]; [by intros ?%elem_of_nil|].
  intros Hx. rewrite without_first_cons. cbn [GameState.remove].
  case_decide as Hy; [done|].
  apply elem_of_cons in Hx as [->|Hx]; [done|]. by rewrite IH.
Qed.

Lemma without_first_first hand1 hand2 x :
  x ∉ hand1 → without_first (hand1 ++ x :: hand2) x = hand1 ++ hand2.
Proof.
  induction hand1 as [|y hand1 IH]; cbn [app].
  - intros _. rewrite without_first_cons. by rewrite decide_True.
  - intros [Hy Hh]%not_elem_of_cons. rewrite without_first_cons.
    rewrite decide_False by done. by rewrite IH.
Qed.

(** The guarded loop never raises. *)
Lemma remove_letters_total word : ∀ hand,
  GameState.remove_letters hand word = (Ok tt, discard hand word).
Proof.
  induction word as [|x word IH]; intros hand; [done|].
  cbn [GameState.remove_letters]. unfold discard. cbn [fold_left].
  case_bool_decide as Hx.
  - rewrite (remove_present _ _ Hx). apply IH.
  - rewrite (without_first_absent _ _ Hx). apply IH.
Qed.

Lemma length_without_first hand x :
  (length (without_first hand x) ≤ length hand)%nat.
Proof.
  induction hand as [|y hand IH]; [done|]. rewrite without_first_cons.
  case_decide; cbn; lia.
Qed.

Lemma length_discard word : ∀ hand,
  (length (discard hand word) ≤ length hand)%nat.
Proof.
  induction word as [|x word IH]; intros hand; [done|].
  unfold discard. cbn [fold_left].
  pose proof (IH (without_first hand x)).
  pose proof (length_without_first hand x). unfold discard in *. lia.
Qed.
End hand.

(** * Turns *)

Section turns.
Implicit Types (g : GameState.t) (m : GameState.move).

(** On a well-shaped board [place_word] rejects or raises without writing,
    or accepts and fills [fresh] cells. *)
Lemma place_word_cases (b : Board.t) word start direction :
  Board.wf b →
  Board.place_word b word start direction = (Ok false, b) ∨
  (∃ e, Board.place_word b word start direction = (Raise e, b)) ∨
  (∃ b', Board.place_word b word start direction = (Ok true, b') ∧
         Board.wf b' ∧
         Board.occupied b' =
           (Board.occupied b + fresh b start direction 0 (letters word))%nat).
Proof.
  intros Hwf. rewrite place_word_unfold. case_decide as Hfit; [by left|].
  destruct (Board.check b start direction 0 (letters word)) as [[]|e] eqn:Hchk;
    [|by left|right; left; eauto].
  destruct (write_after_check start direction (letters word) 0 b)
    as (b' & Hw & Hwf' & _ & Hocc & _);
    [done|rewrite length_letters; lia|done|].
  rewrite Hw. right. right. eauto.
Qed.

(** What one turn does to the state and to the tally. *)
Lemma player_turn_cases g m :
  Board.wf (GameState.board g) →
  GameState.player_turn g m = (Ok GameState.InvalidMove, g) ∨
  (∃ e, GameState.player_turn g m = (Raise e, g)) ∨
  (∃ g', GameState.player_turn g m = (Ok GameState.WordPlaced, g') ∧
         Board.wf (GameState.board g') ∧
         (GameState.tally g'
            + removed (GameState.human g) (letters (GameState.word m))
          = GameState.tally g
            + fresh (GameState.board g) (move_start m) (move_direction m)
                    0 (letters (GameState.word m)))%nat).
Proof.
  intros Hwf. unfold GameState.player_turn.
  case_decide as Hword; [by left|].
  fold (move_start m). fold (move_direction m).
  destruct (place_word_cases (GameState.board g) (GameState.word m)
              (move_start m) (move_direction m) Hwf)
    as [->|[[e ->]|(b' & -> & Hwf' & Hocc)]].
  - left. by destruct g.
  - right. left. exists e. by destruct g.
  - right. right. rewrite remove_letters_total.
    destruct (draw_tiles_conserves (GameState.tile_manager g)
                (len (GameState.word m))) as (drawn & pool' & -> & Hpool).
    eexists. split; [done|]. split; [done|].
    unfold GameState.tally, removed. cbn. rewrite length_app, Hocc.
    pose proof (length_discard (letters (GameState.word m))
                  (GameState.human g)).
    lia.
Qed.

(** A non-empty word the board accepts ends the turn with the word
    placed, whatever the hand holds. *)
Lemma player_turn_placed g m (b' : Board.t) :
  GameState.word m ≠ ""%string →
  Board.place_word (GameState.board g) (GameState.word m)
    (move_start m) (move_direction m) = (Ok true, b') →
  ∃ drawn pool',
    TileManager.draw_tiles (GameState.tile_manager g)
      (len (GameState.word m)) = (Ok drawn, pool') ∧
    GameState.player_turn g m =
      (Ok GameState.WordPlaced,
       GameState.mk b' pool'
         (discard (GameState.human g) (letters (GameState.word m)) ++ drawn)
         (GameState.computer g)).
Proof.
  intros Hne Hplace.
  destruct (draw_tiles_conserves (GameState.tile_manager g)
              (len (GameState.word m))) as (drawn & pool' & Hdraw & _).
  exists drawn, pool'. split; [done|].
  unfold GameState.player_turn. rewrite decide_False by done.
  fold (move_start m). fold (move_direction m).
  by rewrite Hplace, remove_letters_total, Hdraw.
Qed.

Lemma player_turn_wf g m :
  Board.wf (GameState.board g) →
  Board.wf (GameState.board (GameState.player_turn g m).2).
Proof.
  intros Hwf.
  destruct (player_turn_cases g m Hwf) as [->|[[e ->]|(g' & -> & ? & _)]];
    done.
Qed.

(** Fair plays keep the tally. *)
Lemma turns_tally moves : ∀ g,
  Board.wf (GameState.board g) → fair_run g moves →
  GameState.tally (GameState.turns g moves).2 = GameState.tally g.
Proof.
  induction moves as [|m rest IH]; intros g Hwf Hfair; [done|].
  destruct Hfair as [Hm Hrest]. cbn [GameState.turns].
  unfold fair, accepted in Hm.
  destruct (player_turn_cases g m Hwf)
    as [Hp|[[e Hp]|(g' & Hp & Hwf' & Htally)]]; rewrite Hp in *.
  - by apply IH.
  - done.
  - cbn [fst snd] in *. rewrite IH by done.
    specialize (Hm eq_refl).
    pose proof (length_discard (letters (GameState.word m))
                  (GameState.human g)).
    lia.
Qed.

Lemma fair_run_take moves : ∀ g point,
  fair_run g moves → fair_run g (take point moves).
Proof.
  induction moves as [|m rest IH]; intros g [|point] Hfair; try done.
  destruct Hfair as [Hm Hrest]. cbn. split; [done|]. by apply IH.
Qed.

Lemma occupied_init : Board.occupied Board.init = 0%nat.
Proof. reflexivity. Qed.

(** The game as it stands when the first move is read. *)
Lemma draw_player_tiles_init (shuffle : list Letter → list Letter) :
  (∀ l, shuffle l ≡ₚ l) →
  ∃ g, GameState.draw_player_tiles (GameState.init shuffle) = (Ok tt, g) ∧
       GameState.board g = Board.init ∧ GameState.tally g = 98%nat.
Proof.
  intros Hperm. unfold GameState.draw_player_tiles.
  destruct (draw_tiles_conserves
              (GameState.tile_manager (GameState.init shuffle)) 7)
    as (drawn & pool' & -> & Hpool).
  eexists. split; [done|]. split; [done|].
  unfold GameState.tally.
  cbn [GameState.tile_manager GameState.human GameState.computer
       GameState.board GameState.init length] in *.
  rewrite (length_initialize_tile_pool _ Hperm) in Hpool.
  rewrite occupied_init. lia.
Qed.
End turns.

(** * The claims about turns *)

(** C9: the hand update never raises, whatever the word and the hand: letter
    by letter it takes the first occurrence out of the hand when there is
    one and leaves the hand alone otherwise; so every non-empty word the
    board accepts ends the turn with the word placed, the hand being what
    is left plus the tiles drawn. *)
Theorem C9_hand_update (hand word : list Letter) :
  GameState.remove_letters hand word = (Ok tt, discard hand word) ∧
  ∀ (g : GameState.t) (m : GameState.move) (b' : Board.t),
    GameState.human g = hand →
    letters (GameState.word m) = word →
    GameState.word m ≠ ""%string →
    Board.place_word (GameState.board g) (GameState.word m)
      (move_start m) (move_direction m) = (Ok true, b') →
    ∃ drawn pool',
      TileManager.draw_tiles (GameState.tile_manager g)
        (len (GameState.word m)) = (Ok drawn, pool') ∧
      GameState.player_turn g m =
        (Ok GameState.WordPlaced,
         GameState.mk b' pool' (discard hand word ++ drawn)
           (GameState.computer g)).
Proof.
  split; [apply remove_letters_total|].
  intros g m b' <- <- Hne Hplace. by apply player_turn_placed.
Qed.

Lemma C9_hand_update_witness :
  GameState.remove_letters (letters "ZYYXWWV") (letters "CAT")
    = (Ok tt, letters "ZYYXWWV") ∧
  (GameState.player_turn game_in_table_order
     (GameState.mkmove "CAT" 8 8 "ACROSS")).1 = Ok GameState.WordPlaced.
Proof.
  destruct (C9_hand_update (letters "ZYYXWWV") (letters "CAT")) as [Hrem Hturn].
  split; [exact Hrem|].
  destruct (Hturn game_in_table_order (GameState.mkmove "CAT" 8 8 "ACROSS")
              (Board.place_word Board.init "CAT" (7, 7) ACROSS).2)
    as (drawn & pool' & _ & ->); [reflexivity|reflexivity|discriminate| |];
    reflexivity.
Defined.

(** C2 as stated fails: with the hand Z, Y, Y, X, W, W, V the word ["CAT"] is
    accepted on the empty board; three cells are filled, nothing leaves the
    hand, three tiles move from the pool to the hand, and the tally goes
    from 98 to 101. *)
Lemma C2_tally_not_conserved :
  let game := GameState.game_loop (GameState.init (λ pool, pool))
                [GameState.mkmove "CAT" 8 8 "ACROSS"] in
  GameState.tally (GameState.init (λ pool, pool)) = 98%nat ∧
  game.1 = Ok tt ∧
  GameState.tally game.2 = 101%nat.
Proof. vm_compute. repeat split. Qed.

(** C2, amended: however the pool was shuffled, the tally is 98 when the game
    is set up and stays 98 at every point of a sequence of plays in which
    every accepted play fills exactly as many empty cells with letters
    other than ["."] as it takes letters out of the hand. *)
Theorem C2_tally_fair_run (shuffle : list Letter → list Letter)
    (moves : list GameState.move) (point : nat) :
  (∀ l, shuffle l ≡ₚ l) →
  fair_run (GameState.draw_player_tiles (GameState.init shuffle)).2 moves →
  GameState.tally (GameState.init shuffle) = 98%nat ∧
  GameState.tally
    (GameState.game_loop (GameState.init shuffle) (take point moves)).2
    = 98%nat.
Proof.
  intros Hperm Hfair. split.
  { unfold GameState.tally. cbn [GameState.init GameState.tile_manager
      GameState.human GameState.computer GameState.board length].
    by rewrite (length_initialize_tile_pool _ Hperm), occupied_init. }
  unfold GameState.game_loop.
  destruct (draw_player_tiles_init shuffle Hperm) as (g & Hg & Hboard & Htally).
  rewrite Hg in *. cbn [snd] in Hfair.
  rewrite turns_tally; [done| |by apply fair_run_take].
  rewrite Hboard. apply wf_init.
Qed.

Lemma C2_tally_fair_run_witness :
  GameState.tally (GameState.init (λ pool, pool)) = 98%nat ∧
  GameState.tally
    (GameState.game_loop (GameState.init (λ pool, pool))
       (take 2 [GameState.mkmove "WYZ" 8 8 "ACROSS";
                GameState.mkmove "CAT" 1 20 "ACROSS"])).2
    = 98%nat.
Proof.
  apply C2_tally_fair_run.
  - reflexivity.
  - split; [intros _; vm_compute; reflexivity|].
    split; [intros Hacc; vm_compute in Hacc; discriminate|exact I].
Defined.

(** * Plays that are fair, and plays that are not *)

Section fair_plays.
Implicit Types (g : GameState.t) (m : GameState.move)
               (hand word : list Letter).

(** A hand that holds the letters of the word, each as often as the word
    has it, loses exactly these letters. *)
Lemma removed_submseteq word : ∀ hand,
  word ⊆+ hand → removed hand word = length word.
Proof.
  unfold removed.
  induction word as [|x word IH]; intros hand Hsub.
  { cbn. lia. }
  apply submseteq_cons_l in Hsub as (k & Hperm & Hsub).
  assert (Hx : x ∈ hand) by (rewrite Hperm; left).
  destruct (list_elem_of_split_l hand x Hx) as (h1 & h2 & -> & Hfirst).
  unfold discard in *. cbn [fold_left].
  rewrite without_first_first by done.
  assert (Hk : k ≡ₚ h1 ++ h2).
  { apply (inj (x ::.)). by rewrite <- Hperm, Permutation_middle. }
  specialize (IH (h1 ++ h2)). rewrite <- Hk in IH at 1.
  specialize (IH Hsub).
  pose proof (length_discard word (h1 ++ h2)) as Hle. unfold discard in Hle.
  rewrite !length_app in *. cbn [length]. lia.
Qed.

(** Letters other than the empty marker all count when every cell they go
    to is empty. *)
Lemma fresh_on_empty (b : Board.t) start direction word : ∀ i,
  Board.dot ∉ word →
  (∀ (n : nat), (n < length word)%nat →
     Board.is_empty b (Board.cell start direction (i + Z.of_nat n))
       = Ok true) →
  fresh b start direction i word = length word.
Proof.
  induction word as [|x word IH]; intros i Hdot Hempty; [done|].
  apply not_elem_of_cons in Hdot as [Hx Hdot]. cbn [fresh length].
  pose proof (Hempty 0%nat ltac:(cbn; lia)) as H0.
  rewrite Z.add_0_r in H0. rewrite H0, IH; [| done |].
  - unfold ind. by rewrite decide_True by done.
  - intros n Hn.
    replace (i + 1 + Z.of_nat n) with (i + Z.of_nat (S n)) by lia.
    apply Hempty. cbn. lia.
Qed.

(** A word without the empty marker, laid on empty cells of the board out
    of letters the hand holds, is a fair play. *)
Lemma fair_clean_play g m :
  Board.dot ∉ letters (GameState.word m) →
  (∀ (n : nat), (n < length (letters (GameState.word m)))%nat →
     Board.is_empty (GameState.board g)
       (Board.cell (move_start m) (move_direction m) (Z.of_nat n))
       = Ok true) →
  letters (GameState.word m) ⊆+ GameState.human g →
  fair g m.
Proof.
  intros Hdot Hempty Hsub _.
  rewrite removed_submseteq by done.
  apply fresh_on_empty; [done|]. intros n. rewrite Z.add_0_l. apply Hempty.
Qed.

(** The opening hand comes out of the pool. *)
Lemma opening_hand (shuffle : list Letter → list Letter) :
  (∀ l, shuffle l ≡ₚ l) →
  GameState.human (GameState.draw_player_tiles (GameState.init shuffle)).2
    ⊆ TileManager.unshuffled.
Proof.
  intros Hperm x. unfold GameState.draw_player_tiles.
  rewrite draw_tiles_spec. cbn [snd GameState.human].
  intros (i & Hx%list_elem_of_lookup_2 & _)%elem_of_take.
  rewrite elem_of_reverse in Hx.
  cbn [GameState.init GameState.tile_manager] in Hx.
  unfold TileManager.initialize_tile_pool in Hx.
  by rewrite <- (Hperm TileManager.unshuffled).
Qed.

(** Whatever the shuffle, a first play of ["1"] breaks the tally: no hand
    holds that tile, the board gains a cell, and a tile moves from the pool
    to the hand. *)
Lemma tally_broken_under_every_shuffle (shuffle : list Letter → list Letter) :
  (∀ l, shuffle l ≡ₚ l) →
  GameState.tally
    (GameState.game_loop (GameState.init shuffle)
       [GameState.mkmove "1" 1 1 "ACROSS"]).2 = 99%nat.
Proof.
  intros Hperm. pose proof (opening_hand shuffle Hperm) as Hhand.
  unfold GameState.game_loop. cbn [GameState.turns].
  destruct (draw_player_tiles_init shuffle Hperm) as (g & Hg & Hb & Ht).
  rewrite Hg in *. cbn [snd] in Hhand.
  set (m := GameState.mkmove "1" 1 1 "ACROSS").
  assert (Hwf : Board.wf (GameState.board g)) by (rewrite Hb; apply wf_init).
  assert (Hfresh : fresh (GameState.board g) (move_start m)
            (move_direction m) 0 (letters (GameState.word m)) = 1%nat)
    by (by rewrite Hb).
  assert (Hrem : removed (GameState.human g) (letters (GameState.word m))
                 = 0%nat).
  { unfold removed, discard. cbn [letters list_ascii_of_string
      GameState.word m fold_left].
    rewrite without_first_absent; [lia|].
    intros Hin%Hhand.
    assert (Hno : "1"%char ∉ TileManager.unshuffled) by compute_done.
    done. }
  destruct (player_turn_placed g m
              (Board.place_word Board.init "1" (0, 0) ACROSS).2)
    as (drawn & pool' & _ & Hplaced); [done|by rewrite Hb|].
  destruct (player_turn_cases g m Hwf)
    as [Hp|[[e Hp]|(g' & Hp & _ & Htally)]];
    [congruence|congruence|].
  rewrite Hp. cbn [fst snd]. lia.
Qed.
End fair_plays.

(** A play over a letter of the board can be fair too: after ["WW"] the hand
    holds no W, yet ["WZ"] laid down from the first W fills one cell and
    takes the one Z out of the hand, and the tally is still 98. *)
Example tally_kept_over_a_letter :
  let game := GameState.game_loop (GameState.init (λ pool, pool))
                [GameState.mkmove "WW" 8 8 "ACROSS";
                 GameState.mkmove "WZ" 8 8 "DOWN"] in
  game.1 = Ok tt ∧
  Board.tile (GameState.board game.2) (8, 7) = Ok "Z"%char ∧
  GameState.tally game.2 = 98%nat.
Proof. vm_compute. repeat split. Qed.

(** * More of the board: positions and single cells *)

Section positions.
Implicit Types (b : Board.t) (pos : CellCoord).

Lemma elem_of_range n i : i ∈ range n ↔ 0 ≤ i < n.
Proof. unfold range. rewrite elem_of_seqZ. lia. Qed.

Lemma NoDup_list_prod {A B} (l : list A) (k : list B) :
  NoDup l → NoDup k → NoDup (list_prod l k).
Proof.
  intros Hl Hk. induction Hl as [|x l Hx Hl IH]; cbn; [constructor|].
  apply NoDup_app. split; [|split; [|done]].
  - apply (NoDup_fmap_2 _), Hk.
  - intros [a c] (c' & [= -> ->] & _)%list_elem_of_fmap
      [Hin _]%list_elem_of_In%in_prod_iff.
    by apply Hx, list_elem_of_In.
Qed.

(** X1: [all_positions] lists exactly the positions [in_bounds] accepts, each
    once, [size * size] of them. *)
Theorem all_positions_in_bounds b :
  (∀ pos, pos ∈ Board.all_positions b ↔ Board.in_bounds b pos = true) ∧
  NoDup (Board.all_positions b) ∧
  length (Board.all_positions b)
    = (Z.to_nat (Board.size b) * Z.to_nat (Board.size b))%nat.
Proof.
  unfold Board.all_positions. split; [|split].
  - intros [r c]. rewrite list_elem_of_In.
    etrans; [apply in_prod_iff|]. rewrite <- !list_elem_of_In.
    rewrite !elem_of_range. unfold Board.in_bounds.
    rewrite andb_true_iff, !bool_decide_eq_true. done.
  - apply NoDup_list_prod; apply NoDup_seqZ.
  - unfold range, CellCoord. by rewrite length_prod, !length_seqZ.
Qed.

(** X2: [all_positions] is in row-major order: position (r, c) is entry
    [r * size + c]. *)
Theorem all_positions_lookup b (r c : Z) :
  Board.in_bounds b (r, c) = true →
  Board.all_positions b !! Z.to_nat (r * Board.size b + c) = Some (r, c).
Proof.
  intros [Hr Hc]%andb_prop. apply bool_decide_eq_true in Hr, Hc.
  unfold Board.all_positions, range.
  generalize (Board.size b) Hr Hc. clear Hr Hc. intros n Hr Hc.
  assert (Hgen : ∀ (k : nat) (m : Z), 0 ≤ m →
            (Z.of_nat k + m ≤ n) → 0 ≤ Z.of_nat k →
            ∀ r, m ≤ r < m + Z.of_nat k →
            list_prod (seqZ m (Z.of_nat k)) (seqZ 0 n)
              !! Z.to_nat ((r - m) * n + c) = Some (r, c)).
  { induction k as [|k IH]; intros m Hm Hkm Hk r' Hr'; [lia|].
    rewrite seqZ_cons by lia. cbn [list_prod].
    replace (Z.pred (Z.of_nat (S k))) with (Z.of_nat k) by lia.
    destruct (decide (r' = m)) as [->|Hne].
    - rewrite lookup_app_l by (rewrite length_map, length_seqZ; nia).
      rewrite list_lookup_fmap, lookup_seqZ_lt by nia.
      cbn. do 2 f_equal. nia.
    - rewrite lookup_app_r by (rewrite length_map, length_seqZ; nia).
      rewrite length_map, length_seqZ.
      replace (Z.to_nat ((r' - m) * n + c) - Z.to_nat n)%nat
        with (Z.to_nat ((r' - Z.succ m) * n + c)) by nia.
      apply IH; lia. }
  specialize (Hgen (Z.to_nat n) 0 ltac:(lia) ltac:(lia) ltac:(lia) r
                ltac:(lia)).
  rewrite Z2Nat.id, Z.sub_0_r in Hgen by lia. done.
Qed.

Lemma all_positions_lookup_witness :
  Board.all_positions Board.init !! Z.to_nat (7 * Board.size Board.init + 9)
    = Some (7, 9).
Proof. apply all_positions_lookup. reflexivity. Defined.
End positions.

Section cells.
Implicit Types (b : Board.t) (pos : CellCoord) (t x : Letter).

Lemma index_IndexError n i e : index n i = Raise e → e = IndexError.
Proof. unfold index. repeat case_decide; congruence. Qed.

Lemma index_mod n i :
  - Z.of_nat n ≤ i < Z.of_nat n →
  index n i = Ok (Z.to_nat (i mod Z.of_nat n)) ∧
  0 ≤ i mod Z.of_nat n < Z.of_nat n.
Proof.
  intros Hi. split; [|apply Z.mod_pos_bound; lia].
  destruct (decide (0 ≤ i)).
  - rewrite Z.mod_small by lia. apply index_nonneg. lia.
  - rewrite index_wrap by lia. do 2 f_equal.
    apply (Z.mod_unique i (Z.of_nat n) (-1)); lia.
Qed.

(** X3: A coordinate in [-size, size) is read modulo [size]: negative rows and
    columns count from the far edge, and the read cannot raise. *)
Theorem tile_wraps b (r c : Z) :
  Board.wf b →
  - Board.size b ≤ r < Board.size b →
  - Board.size b ≤ c < Board.size b →
  Board.in_bounds b (r mod Board.size b, c mod Board.size b) = true ∧
  ∃ x, Board.tile b (r, c) = Ok x ∧
       Board.tile b (r mod Board.size b, c mod Board.size b) = Ok x.
Proof.
  intros Hwf Hr Hc. pose proof Hwf as [Hlen Hrows].
  rewrite <- Hlen in Hr. destruct (index_mod _ _ Hr) as [Hk Hkr].
  rewrite Hlen in Hk, Hkr.
  assert (Hin : Board.in_bounds b (r mod Board.size b, c mod Board.size b)
                = true).
  { unfold Board.in_bounds. apply andb_true_intro.
    split; apply bool_decide_eq_true; [done|apply Z.mod_pos_bound; lia]. }
  split; [done|].
  destruct (tile_in_bounds b _ _ Hwf Hin) as (row & x & Hrow & Hx & _ & _ & Ht).
  exists x. split; [|done].
  pose proof (Forall_lookup_1 _ _ _ _ Hrows Hrow) as Hrl. cbn in Hrl.
  rewrite <- Hrl in Hc. destruct (index_mod _ _ Hc) as [Hj _].
  rewrite Hrl in Hj.
  apply tile_Ok. eexists _, _, row.
  split; [exact Hk|]. split; [exact Hrow|]. split; [exact Hj|exact Hx].
Qed.

Lemma tile_wraps_witness :
  Board.in_bounds board_CAT (-8 mod Board.size board_CAT,
                             -6 mod Board.size board_CAT) = true ∧
  ∃ x, Board.tile board_CAT (-8, -6) = Ok x ∧
       Board.tile board_CAT (-8 mod Board.size board_CAT,
                             -6 mod Board.size board_CAT) = Ok x.
Proof.
  apply tile_wraps;
    [exact wf_board_CAT|change (Board.size board_CAT) with 15; lia..].
Defined.

Lemma tile_outside b (r c : Z) :
  Board.wf b →
  ¬ (- Board.size b ≤ r < Board.size b ∧ - Board.size b ≤ c < Board.size b) →
  Board.tile b (r, c) = Raise IndexError.
Proof.
  intros [Hlen Hrows] Hout. unfold Board.tile, getitem at 2.
  destruct (decide (- Board.size b ≤ r < Board.size b)) as [Hr|Hr].
  - rewrite <- Hlen in Hr. destruct (index_mod _ _ Hr) as [Hk _].
    rewrite Hk. cbn.
    destruct (lookup_lt_is_Some_2 (Board._tiles b)
                (Z.to_nat (r mod Z.of_nat (length (Board._tiles b)))))
      as [row Hrow]; [by eapply index_lt|].
    rewrite Hrow. cbn.
    pose proof (Forall_lookup_1 _ _ _ _ Hrows Hrow) as Hrl. cbn in Hrl.
    unfold getitem. rewrite index_raise; [done|]. lia.
  - rewrite index_raise; [done|]. lia.
Qed.

(** X4: Outside [-size, size) in either coordinate, reading a cell raises
    [IndexError], and so does writing one. *)
Theorem tile_out_of_range b (r c : Z) (t : Letter) :
  Board.wf b →
  ¬ (- Board.size b ≤ r < Board.size b ∧ - Board.size b ≤ c < Board.size b) →
  Board.tile b (r, c) = Raise IndexError ∧
  Board.set_tile b (r, c) t = Raise IndexError.
Proof.
  intros Hwf Hout. pose proof (tile_outside b r c Hwf Hout) as Ht.
  split; [done|].
  destruct (Board.set_tile b (r, c) t) as [b'|e] eqn:Hset.
  - apply set_tile_Ok in Hset as (k & j & row & Hk & Hrow & Hj & _).
    destruct (lookup_lt_is_Some_2 row j) as [x Hx]; [by eapply index_lt|].
    assert (Board.tile b (r, c) = Ok x)
      by (apply tile_Ok; by exists k, j, row).
    congruence.
  - f_equal. revert Hset. unfold Board.set_tile, getitem, setitem.
    destruct (index (length (Board._tiles b)) r) as [k|e'] eqn:Hk; cbn;
      [|intros [= <-]; by eapply index_IndexError].
    destruct (Board._tiles b !! k) as [row|]; cbn; [|congruence].
    destruct (index (length row) c) as [j|e'] eqn:Hj; cbn; [done|].
    intros [= <-]. by eapply index_IndexError.
Qed.

Lemma tile_out_of_range_witness :
  Board.tile board_CAT (3, -16) = Raise IndexError ∧
  Board.set_tile board_CAT (3, -16) "Q"%char = Raise IndexError.
Proof.
  apply tile_out_of_range; [exact wf_board_CAT|].
  change (Board.size board_CAT) with 15. lia.
Defined.

(** X5: What [set_tile] writes, [tile] reads back, also through a negative
    index. *)
Theorem set_tile_tile b pos t b' :
  Board.set_tile b pos t = Ok b' → Board.tile b' pos = Ok t.
Proof.
  destruct pos as [r c].
  intros (k & j & row & Hk & Hrow & Hj & ->)%set_tile_Ok.
  pose proof (lookup_lt_Some _ _ _ Hrow).
  pose proof (index_lt _ _ _ Hj).
  apply tile_Ok. exists k, j, (<[j := t]> row). cbn.
  rewrite !length_insert, !list_lookup_insert_eq by done. done.
Qed.

Lemma set_tile_tile_witness :
  ∃ b', Board.set_tile Board.init (-1, 0) "Q"%char = Ok b' ∧
        Board.tile b' (-1, 0) = Ok "Q"%char.
Proof.
  eexists. split; [reflexivity|].
  apply (set_tile_tile Board.init). reflexivity.
Defined.

(** X6: [set_tile] can write exactly the cells [tile] can read. *)
Theorem set_tile_defined b pos t :
  (∃ b', Board.set_tile b pos t = Ok b') ↔ (∃ x, Board.tile b pos = Ok x).
Proof.
  destruct pos as [r c]. split.
  - intros (b' & (k & j & row & Hk & Hrow & Hj & _)%set_tile_Ok).
    destruct (lookup_lt_is_Some_2 row j) as [x Hx]; [by eapply index_lt|].
    exists x. apply tile_Ok. by exists k, j, row.
  - intros (x & (k & j & row & Hk & Hrow & Hj & _)%tile_Ok).
    eexists. apply set_tile_Ok. by exists k, j, row.
Qed.

(** X7: Of two writes to the same cell the second is the one that stays. *)
Theorem set_tile_set_tile b pos t1 t2 b1 :
  Board.set_tile b pos t1 = Ok b1 →
  Board.set_tile b1 pos t2 = Board.set_tile b pos t2.
Proof.
  destruct pos as [r c].
  intros (k & j & row & Hk & Hrow & Hj & ->)%set_tile_Ok.
  pose proof (lookup_lt_Some _ _ _ Hrow).
  assert (Board.set_tile b (r, c) t2
          = Ok (Board.mk (Board.size b)
                  (<[k := <[j := t2]> row]> (Board._tiles b)))) as ->.
  { apply set_tile_Ok. by exists k, j, row. }
  apply set_tile_Ok. exists k, j, (<[j := t1]> row). cbn.
  rewrite !length_insert, list_lookup_insert_eq by done.
  by rewrite !list_insert_insert_eq.
Qed.

Lemma set_tile_set_tile_witness :
  ∃ b1, Board.set_tile Board.init (2, 3) "Q"%char = Ok b1 ∧
        Board.set_tile b1 (2, 3) "R"%char
        = Board.set_tile Board.init (2, 3) "R"%char.
Proof.
  eexists. split; [reflexivity|].
  apply (set_tile_set_tile Board.init _ "Q"%char). reflexivity.
Defined.
End cells.

Section empty_cells.
Implicit Types (b : Board.t) (pos : CellCoord) (t x : Letter).

(** X8: Writes to two different cells inside the bounds can be made in either
    order. *)
Theorem set_tile_commute b pos1 pos2 t1 t2 :
  Board.wf b →
  Board.in_bounds b pos1 = true → Board.in_bounds b pos2 = true →
  pos1 ≠ pos2 →
  (b1 ← Board.set_tile b pos1 t1; Board.set_tile b1 pos2 t2) =
  (b2 ← Board.set_tile b pos2 t2; Board.set_tile b2 pos1 t1).
Proof.
  destruct pos1 as [r1 c1], pos2 as [r2 c2]. intros Hwf Hin1 Hin2 Hne.
  destruct (tile_in_bounds b r1 c1 Hwf Hin1)
    as (row1 & x1 & Hrow1 & Hx1 & Hk1 & Hj1 & _).
  destruct (tile_in_bounds b r2 c2 Hwf Hin2)
    as (row2 & x2 & Hrow2 & Hx2 & Hk2 & Hj2 & _).
  pose proof (lookup_lt_Some _ _ _ Hrow1). pose proof (lookup_lt_Some _ _ _ Hx1).
  pose proof (lookup_lt_Some _ _ _ Hrow2). pose proof (lookup_lt_Some _ _ _ Hx2).
  assert (Board.set_tile b (r1, c1) t1 = Ok (Board.mk (Board.size b)
            (<[Z.to_nat r1 := <[Z.to_nat c1 := t1]> row1]> (Board._tiles b))))
    as -> by (apply set_tile_Ok; by eexists _, _, row1).
  assert (Board.set_tile b (r2, c2) t2 = Ok (Board.mk (Board.size b)
            (<[Z.to_nat r2 := <[Z.to_nat c2 := t2]> row2]> (Board._tiles b))))
    as -> by (apply set_tile_Ok; by eexists _, _, row2).
  cbn [mbind result_bind].
  apply andb_prop in Hin1 as [Hr1 Hc1], Hin2 as [Hr2 Hc2].
  apply bool_decide_eq_true in Hr1, Hc1, Hr2, Hc2.
  destruct (decide (r1 = r2)) as [->|Hr].
  - assert (row2 = row1) as -> by congruence.
    assert (Z.to_nat c1 ≠ Z.to_nat c2) by (intros ?; apply Hne; f_equal; lia).
    etrans; [|symmetry].
    + apply set_tile_Ok. eexists _, _, (<[Z.to_nat c1 := t1]> row1). cbn.
      rewrite !length_insert, list_lookup_insert_eq by done. done.
    + apply set_tile_Ok. eexists _, _, (<[Z.to_nat c2 := t2]> row1). cbn.
      rewrite !length_insert, list_lookup_insert_eq by done.
      split; [done|]. split; [done|]. split; [done|].
      rewrite !list_insert_insert_eq. do 2 f_equal.
      by apply list_insert_insert_ne.
  - assert (Z.to_nat r1 ≠ Z.to_nat r2) by lia.
    etrans; [|symmetry].
    + apply set_tile_Ok. eexists _, _, row2. cbn.
      rewrite !length_insert, list_lookup_insert_ne by done. done.
    + apply set_tile_Ok. eexists _, _, row1. cbn.
      rewrite !length_insert, list_lookup_insert_ne by done.
      split; [done|]. split; [done|]. split; [done|].
      f_equal. by apply list_insert_insert_ne.
Qed.

Lemma set_tile_commute_witness :
  (b1 ← Board.set_tile board_CAT (0, 0) "Q"%char;
   Board.set_tile b1 (0, 1) "R"%char) =
  (b2 ← Board.set_tile board_CAT (0, 1) "R"%char;
   Board.set_tile b2 (0, 0) "Q"%char).
Proof.
  apply set_tile_commute;
    [exact wf_board_CAT|reflexivity|reflexivity|discriminate].
Defined.

(** X9: On a well-shaped board [is_empty] never raises, and it is true exactly
    for the positions inside the bounds that hold the empty marker. *)
Theorem is_empty_spec b pos :
  Board.wf b →
  ∃ v, Board.is_empty b pos = Ok v ∧
       (v = true ↔
        Board.in_bounds b pos = true ∧ Board.tile b pos = Ok Board.dot).
Proof.
  intros Hwf. unfold Board.is_empty.
  destruct (Board.in_bounds b pos) eqn:Hin.
  - destruct pos as [r c].
    destruct (tile_in_bounds b r c Hwf Hin) as (_ & x & _ & _ & _ & _ & ->).
    eexists. split; [done|]. rewrite bool_decide_eq_true.
    split; [by intros ->|]. by intros [_ [= ->]].
  - exists false. split; [done|]. split; [done|]. by intros [? _].
Qed.

Lemma is_empty_spec_witness :
  ∃ v, Board.is_empty board_CAT (7, 8) = Ok v ∧
       (v = true ↔
        Board.in_bounds board_CAT (7, 8) = true ∧
        Board.tile board_CAT (7, 8) = Ok Board.dot).
Proof. apply is_empty_spec. exact wf_board_CAT. Defined.

Lemma is_first_turn_Forall b :
  Board.is_first_turn b = true ↔
  Forall (Forall (λ x, x = Board.dot)) (Board._tiles b).
Proof.
  unfold Board.is_first_turn. rewrite forallb_forall, Forall_forall.
  split; intros Hall row Hrow.
  - apply list_elem_of_In, Hall in Hrow. rewrite forallb_forall in Hrow.
    apply Forall_forall. intros x Hx%list_elem_of_In%Hrow.
    by apply bool_decide_eq_true in Hx.
  - apply list_elem_of_In, Hall in Hrow. rewrite Forall_forall in Hrow.
    apply forallb_forall. intros x Hx%list_elem_of_In%Hrow.
    by apply bool_decide_eq_true.
Qed.

Lemma filter_length_zero {A} (P : A → Prop) `{!∀ a, Decision (P a)}
    (l : list A) :
  length (filter P l) = 0%nat ↔ Forall (λ a, ¬ P a) l.
Proof.
  induction l as [|a l IH]; [done|]. rewrite filter_cons, Forall_cons.
  case_decide; cbn; [|tauto]. split; [lia|tauto].
Qed.

(** [is_first_turn] holds exactly when no cell is occupied. *)
Lemma is_first_turn_occupied b :
  Board.is_first_turn b = true ↔ Board.occupied b = 0%nat.
Proof.
  rewrite is_first_turn_Forall. unfold Board.occupied.
  rewrite filter_length_zero, !Forall_forall. split.
  - intros Hall x (row & Hrow & Hx)%list_elem_of_In%in_concat Hd.
    apply Hd. apply list_elem_of_In in Hrow, Hx.
    specialize (Hall row Hrow). rewrite Forall_forall in Hall.
    by apply Hall.
  - intros Hall row Hrow. apply Forall_forall. intros x Hx.
    destruct (decide (x = Board.dot)) as [|Hd]; [done|].
    exfalso. apply (Hall x); [|done].
    apply list_elem_of_In, in_concat. exists row.
    by rewrite <- !list_elem_of_In.
Qed.

(** X10: On a well-shaped board [is_first_turn] holds exactly when [is_empty]
    holds of every position inside the bounds. *)
Theorem is_first_turn_spec b :
  Board.wf b →
  Board.is_first_turn b = true ↔
  ∀ pos, Board.in_bounds b pos = true → Board.is_empty b pos = Ok true.
Proof.
  intros Hwf. rewrite is_first_turn_Forall. split.
  - intros Hall [r c] Hin. unfold Board.is_empty. rewrite Hin.
    destruct (tile_in_bounds b r c Hwf Hin)
      as (row & x & Hrow & Hx & _ & _ & ->).
    cbn. rewrite bool_decide_eq_true_2; [done|].
    pose proof (Forall_lookup_1 _ _ _ _ Hall Hrow) as Hr.
    by apply (Forall_lookup_1 _ _ _ _ Hr Hx).
  - intros Hempty. destruct Hwf as [Hlen Hrows].
    apply Forall_lookup. intros k row Hrow.
    apply Forall_lookup. intros j x Hx.
    pose proof (Forall_lookup_1 _ _ _ _ Hrows Hrow) as Hrl. cbn in Hrl.
    pose proof (lookup_lt_Some _ _ _ Hrow). pose proof (lookup_lt_Some _ _ _ Hx).
    assert (Hin : Board.in_bounds b (Z.of_nat k, Z.of_nat j) = true).
    { unfold Board.in_bounds. apply andb_true_intro.
      split; apply bool_decide_eq_true; lia. }
    specialize (Hempty _ Hin). unfold Board.is_empty in Hempty.
    rewrite Hin in Hempty.
    assert (Board.tile b (Z.of_nat k, Z.of_nat j) = Ok x) as Ht.
    { apply tile_Ok. exists k, j, row.
      rewrite !index_nonneg, !Nat2Z.id by lia. done. }
    rewrite Ht in Hempty. cbn in Hempty. injection Hempty as Hd.
    by apply bool_decide_eq_true in Hd.
Qed.

Lemma is_first_turn_spec_witness :
  Board.is_first_turn board_CAT = true ↔
  ∀ pos, Board.in_bounds board_CAT pos = true →
         Board.is_empty board_CAT pos = Ok true.
Proof. apply is_first_turn_spec. exact wf_board_CAT. Defined.
End empty_cells.

(** * More of [place_word]: what a call can and cannot do *)

Section placements.
Variables (start : CellCoord) (direction : Direction).
Implicit Types (b : Board.t) (word : string) (w : list Letter) (i j : Z).

Local Abbreviation cell := (Board.cell start direction).

Lemma tile_IndexError b pos e : Board.tile b pos = Raise e → e = IndexError.
Proof.
  destruct pos as [r c]. unfold Board.tile, getitem.
  destruct (index (length (Board._tiles b)) r) as [k|e'] eqn:Hk; cbn.
  - destruct (Board._tiles b !! k) as [row|]; cbn; [|congruence].
    destruct (index (length row) c) as [j|e''] eqn:Hj; cbn.
    + destruct (row !! j); congruence.
    + intros [= <-]. by eapply index_IndexError.
  - intros [= <-]. by eapply index_IndexError.
Qed.

Lemma check_IndexError b w : ∀ i e,
  Board.check b start direction i w = Raise e → e = IndexError.
Proof.
  induction w as [|l rest IH]; intros i e; [done|]. cbn [Board.check].
  unfold Board.is_empty.
  destruct (Board.in_bounds b (cell i));
    destruct (Board.tile b (cell i)) as [x|e'] eqn:Ht; cbn;
    try (intros [= <-]; by eapply tile_IndexError);
    repeat (case_bool_decide; cbn); try done; apply IH.
Qed.

(** What the check running to its end says of each cell of the span. *)
Lemma check_true_nth b w : ∀ i (n : nat) letter,
  Board.check b start direction i w = Ok true →
  w !! n = Some letter →
  (Board.in_bounds b (cell (i + Z.of_nat n)) = true ∧
   Board.tile b (cell (i + Z.of_nat n)) = Ok Board.dot) ∨
  Board.tile b (cell (i + Z.of_nat n)) = Ok letter.
Proof.
  induction w as [|l rest IH]; intros i n letter Hchk Hn; [done|].
  apply check_cons_true in Hchk as [Hrest Hcase].
  destruct n as [|n].
  - injection Hn as <-. rewrite Z.add_0_r.
    destruct Hcase as [?|[_ ?]]; [by left|by right].
  - replace (i + Z.of_nat (S n)) with (i + 1 + Z.of_nat n) by lia.
    by apply IH.
Qed.

(** Over cells inside the bounds the check does not raise. *)
Lemma check_in_bounds_Ok b w : ∀ i,
  Board.wf b →
  (∀ (n : nat), (n < length w)%nat →
     Board.in_bounds b (cell (i + Z.of_nat n)) = true) →
  ∃ v, Board.check b start direction i w = Ok v.
Proof.
  induction w as [|l rest IH]; intros i Hwf Hin; [by eexists|].
  cbn [Board.check]. unfold Board.is_empty.
  pose proof (Hin 0%nat ltac:(cbn; lia)) as Hin0.
  rewrite Z.add_0_r in Hin0. rewrite Hin0.
  destruct (cell i) as [r c] eqn:Hci.
  destruct (tile_in_bounds b r c Hwf Hin0) as (_ & y & _ & _ & _ & _ & Hy).
  rewrite Hy. cbn.
  destruct (IH (i + 1) Hwf) as [v Hv].
  { intros n Hn.
    replace (i + 1 + Z.of_nat n) with (i + Z.of_nat (S n)) by lia.
    apply Hin. cbn. lia. }
  rewrite Hv. repeat (case_bool_decide; cbn); eauto.
Qed.

(** A position is a cell of the span or it is none. *)
Lemma span_cell_dec (len : nat) (pos : CellCoord) :
  (∃ n : nat, (n < len)%nat ∧ cell (Z.of_nat n) = pos) ∨
  (∀ j, 0 ≤ j < 0 + Z.of_nat len → cell j ≠ pos).
Proof.
  destruct start as [r0 c0], pos as [r c].
  destruct direction; cbn.
  - destruct (decide (r = r0 ∧ 0 ≤ c - c0 < Z.of_nat len)) as [[-> Hc]|Hno].
    + left. exists (Z.to_nat (c - c0)). split; [lia|]. f_equal. lia.
    + right. intros j Hj [= -> <-]. apply Hno. lia.
  - destruct (decide (c = c0 ∧ 0 ≤ r - r0 < Z.of_nat len)) as [[-> Hr]|Hno].
    + left. exists (Z.to_nat (r - r0)). split; [lia|]. f_equal. lia.
    + right. intros j Hj [= <- ->]. apply Hno. lia.
Qed.

Lemma tile_occupied b pos x :
  Board.tile b pos = Ok x → x ≠ Board.dot → (0 < Board.occupied b)%nat.
Proof.
  destruct pos as [r c].
  intros (k & j & row & _ & Hrow & _ & Hx)%tile_Ok Hd.
  destruct (decide (Board.occupied b = 0%nat)) as [Hz|]; [|lia].
  unfold Board.occupied in Hz. apply filter_length_zero in Hz.
  rewrite Forall_forall in Hz. exfalso. apply (Hz x); [|done].
  apply list_elem_of_In, in_concat. exists row.
  rewrite <- !list_elem_of_In.
  split; by eapply list_elem_of_lookup_2.
Qed.
End placements.

(** X11: On a well-shaped board a call of [place_word] that does not return true
    returns false or raises [IndexError], and in both cases leaves the board
    exactly as it was: nothing is written before the whole span is
    checked. *)
Theorem place_word_all_or_nothing b word start direction :
  Board.wf b →
  (∃ b', Board.place_word b word start direction = (Ok true, b')) ∨
  Board.place_word b word start direction = (Ok false, b) ∨
  Board.place_word b word start direction = (Raise IndexError, b).
Proof.
  intros Hwf. rewrite place_word_unfold. case_decide as Hfit; [by right; left|].
  destruct (Board.check b start direction 0 (letters word)) as [[]|e] eqn:Hchk.
  - left. destruct (write_after_check start direction (letters word) 0 b)
      as (b' & -> & _); [done|rewrite length_letters; lia|done|]. eauto.
  - by right; left.
  - right; right. by rewrite (check_IndexError _ _ _ _ _ _ Hchk).
Qed.

Lemma place_word_all_or_nothing_witness :
  (∃ b', Board.place_word board_CAT "DOG" (7, 7) ACROSS = (Ok true, b')) ∨
  Board.place_word board_CAT "DOG" (7, 7) ACROSS = (Ok false, board_CAT) ∨
  Board.place_word board_CAT "DOG" (7, 7) ACROSS
    = (Raise IndexError, board_CAT).
Proof. apply place_word_all_or_nothing. exact wf_board_CAT. Defined.

(** X12: Whatever [place_word] returns, the board it leaves has the [size] rows
    of [size] cells it had: the grid is never resized. *)
Theorem place_word_keeps_shape b word start direction :
  Board.wf b →
  Board.wf (Board.place_word b word start direction).2 ∧
  Board.size (Board.place_word b word start direction).2 = Board.size b ∧
  length (Board._tiles (Board.place_word b word start direction).2)
    = length (Board._tiles b).
Proof.
  intros Hwf. destruct (place_word_wf start direction b word Hwf) as [Hwf' Hsz].
  split; [done|]. split; [done|].
  destruct Hwf as [Hlen _], Hwf' as [Hlen' _]. lia.
Qed.

Lemma place_word_keeps_shape_witness :
  Board.wf (Board.place_word board_CAT "TAR" (7, 9) DOWN).2 ∧
  Board.size (Board.place_word board_CAT "TAR" (7, 9) DOWN).2
    = Board.size board_CAT ∧
  length (Board._tiles (Board.place_word board_CAT "TAR" (7, 9) DOWN).2)
    = length (Board._tiles board_CAT).
Proof. apply place_word_keeps_shape. exact wf_board_CAT. Defined.

(** X13: No call of [place_word] changes or removes a letter that is on the
    board: an occupied cell reads the same afterwards, and the number of
    occupied cells does not go down. *)
Theorem place_word_keeps_letters b word start direction pos x :
  Board.wf b →
  Board.in_bounds b pos = true →
  Board.tile b pos = Ok x → x ≠ Board.dot →
  Board.tile (Board.place_word b word start direction).2 pos = Ok x ∧
  (Board.occupied b
   ≤ Board.occupied (Board.place_word b word start direction).2)%nat.
Proof.
  intros Hwf Hin Hx Hd. rewrite place_word_unfold.
  case_decide as Hfit; [done|].
  destruct (Board.check b start direction 0 (letters word)) as [[]|e] eqn:Hchk;
    [|done|done].
  destruct (write_after_check start direction (letters word) 0 b)
    as (b' & -> & _ & _ & Hocc & Ha & Hb);
    [done|rewrite length_letters; lia|done|].
  cbn [snd]. split; [|lia].
  destruct (span_cell_dec start direction (length (letters word)) pos)
    as [(n & Hn & Hcell)|Hout].
  - destruct (lookup_lt_is_Some_2 (letters word) n Hn) as [l Hl].
    specialize (Hb n l Hl). rewrite Z.add_0_l, Hcell in Hb.
    rewrite (Hb Hin).
    destruct (check_true_nth start direction b _ 0 n l Hchk Hl) as [[_ Ht]|Ht];
      rewrite Z.add_0_l, Hcell in Ht; congruence.
  - rewrite Ha; done.
Qed.

Lemma place_word_keeps_letters_witness :
  Board.tile (Board.place_word board_CAT "TAR" (7, 9) DOWN).2 (7, 8)
    = Ok "A"%char ∧
  (Board.occupied board_CAT
   ≤ Board.occupied (Board.place_word board_CAT "TAR" (7, 9)%Z DOWN).2)%nat.
Proof.
  apply place_word_keeps_letters;
    [exact wf_board_CAT|reflexivity|reflexivity|discriminate].
Defined.

(** X14: With the start cell inside the bounds of a well-shaped board,
    [place_word] never raises: it returns true or false. *)
Theorem place_word_in_bounds_no_raise b word start direction :
  Board.wf b → Board.in_bounds b start = true →
  ∃ v b', Board.place_word b word start direction = (Ok v, b').
Proof.
  intros Hwf Hin. rewrite place_word_unfold.
  case_decide as Hfit; [by eexists _, _|].
  destruct (check_in_bounds_Ok start direction b (letters word) 0 Hwf)
    as [v Hv].
  { intros n Hn. rewrite Z.add_0_l.
    pose proof (length_letters word) as Hlen.
    destruct start as [r0 c0]. apply andb_prop in Hin as [Hr Hc].
    apply bool_decide_eq_true in Hr, Hc. unfold along in Hfit.
    destruct direction; cbn in *; apply andb_true_intro;
      split; apply bool_decide_eq_true; lia. }
  rewrite Hv. destruct v; [|by eexists _, _].
  destruct (write_after_check start direction (letters word) 0 b)
    as (b' & -> & _); [done|rewrite length_letters; lia|done|].
  by eexists _, _.
Qed.

Lemma place_word_in_bounds_no_raise_witness :
  ∃ v b', Board.place_word board_CAT "ZEBRA" (14, 13) DOWN = (Ok v, b').
Proof.
  apply place_word_in_bounds_no_raise; [exact wf_board_CAT|reflexivity].
Defined.

(** X15: A non-empty word that passes the length test raises [IndexError],
    leaving the board alone, when the coordinate that does not advance (the
    row for ACROSS, the column for DOWN) is outside [-size, size). *)
Theorem place_word_cross_raises b word start direction :
  Board.wf b → word ≠ ""%string →
  along start direction + len word ≤ Board.size b →
  ¬ (- Board.size b ≤ cross start direction < Board.size b) →
  Board.place_word b word start direction = (Raise IndexError, b).
Proof.
  intros Hwf Hne Hfit Hcross. rewrite place_word_unfold, decide_False by lia.
  destruct (letters word) as [|l rest] eqn:Hw; [by apply letters_nil in Hw|].
  cbn [Board.check]. unfold Board.is_empty.
  assert (Hin : Board.in_bounds b (Board.cell start direction 0) = false).
  { destruct Hwf as [Hlen _].
    destruct start as [r0 c0], direction; cbn in *;
      apply andb_false_iff; [left|right]; apply bool_decide_eq_false; lia. }
  assert (Ht : Board.tile b (Board.cell start direction 0) = Raise IndexError).
  { destruct start as [r0 c0], direction; cbn in *;
      apply tile_outside; try done; lia. }
  by rewrite Hin, Ht.
Qed.

Lemma place_word_cross_raises_witness :
  Board.place_word board_CAT "CAT" (16, 3) ACROSS
    = (Raise IndexError, board_CAT).
Proof.
  apply place_word_cross_raises; [exact wf_board_CAT|discriminate|..];
    change (Board.size board_CAT) with 15; unfold along, cross, len; cbn; lia.
Defined.

(** X16: On a board where [is_first_turn] holds, every word whose span is on the
    board is accepted: the first word may go anywhere it fits. *)
Theorem first_word_accepted b word start direction :
  Board.wf b → Board.is_first_turn b = true →
  span_on_board b word start direction → word ≠ ""%string →
  (Board.place_word b word start direction).1 = Ok true.
Proof.
  intros Hwf Hfirst Hon Hne. rewrite place_word_unfold.
  pose proof (span_on_board_fits _ _ _ _ Hon Hne) as Hfit.
  rewrite decide_False by lia.
  assert (Hchk : Board.check b start direction 0 (letters word) = Ok true).
  { apply check_agree; [done| |].
    - intros n Hn.
      destruct (lookup_lt_is_Some_2 (letters word) n Hn) as [l Hl].
      rewrite Z.add_0_l. by eapply Hon.
    - intros n l x Hl Hx Hd. exfalso.
      pose proof (tile_occupied _ _ _ Hx Hd).
      apply is_first_turn_occupied in Hfirst. lia. }
  rewrite Hchk.
  destruct (write_after_check start direction (letters word) 0 b)
    as (b' & -> & _); [done|rewrite length_letters; lia|done|done].
Qed.

Lemma first_word_accepted_witness :
  (Board.place_word Board.init "QUIZ" (14, 11) ACROSS).1 = Ok true.
Proof.
  apply first_word_accepted; [exact wf_init|reflexivity| |discriminate].
  intros [|[|[|[|n]]]] l Hl; vm_compute in Hl; try discriminate; reflexivity.
Defined.

(** X17: Once a non-empty word without the empty marker has been accepted,
    [is_first_turn] is false. *)
Theorem is_first_turn_after_word b word start direction b' :
  Board.wf b → word ≠ ""%string → Board.dot ∉ letters word →
  Board.place_word b word start direction = (Ok true, b') →
  Board.is_first_turn b' = false.
Proof.
  intros Hwf Hne Hdot. rewrite place_word_unfold.
  case_decide as Hfit; [done|].
  destruct (Board.check b start direction 0 (letters word)) as [[]|e] eqn:Hchk;
    [|done|done].
  destruct (write_after_check start direction (letters word) 0 b)
    as (b1 & -> & _ & _ & Hocc & _);
    [done|rewrite length_letters; lia|done|].
  intros [= <-].
  destruct (Board.is_first_turn b1) eqn:Hfirst; [|done].
  apply is_first_turn_occupied in Hfirst. exfalso.
  destruct (letters word) as [|l rest] eqn:Hw; [by apply letters_nil in Hw|].
  apply not_elem_of_cons in Hdot as [Hl%not_eq_sym _].
  destruct (check_true_nth start direction b _ 0 0%nat l Hchk eq_refl)
    as [[Hin Ht]|Ht]; rewrite Z.add_0_r in *.
  - cbn [fresh] in Hocc. unfold Board.is_empty in Hocc.
    rewrite Hin, Ht in Hocc. cbn in Hocc.
    rewrite bool_decide_eq_true_2 in Hocc by done.
    unfold ind in Hocc. rewrite decide_True in Hocc by done. lia.
  - pose proof (tile_occupied _ _ _ Ht Hl). lia.
Qed.

Lemma is_first_turn_after_word_witness :
  Board.is_first_turn board_CAT = false.
Proof.
  apply (is_first_turn_after_word Board.init "CAT" (7, 7) ACROSS);
    [exact wf_init|discriminate|compute_done|reflexivity].
Defined.

(** * More of the tile pool *)

Section pool_contents.
Implicit Types (pool drawn : list Letter) (num : Z).

Lemma copies_unshuffled (x : Letter) :
  copies x TileManager.unshuffled = table_count x.
Proof.
  destruct x as [[] [] [] [] [] [] [] []]; vm_compute; reflexivity.
Qed.

(** X18: However the pool is shuffled, it holds every tile exactly as often as
    the frequency table says, and no tile that is not in the table. *)
Theorem initialize_tile_pool_contents (shuffle : list Letter → list Letter)
    (x : Letter) :
  (∀ l, shuffle l ≡ₚ l) →
  copies x (TileManager.initialize_tile_pool shuffle) = table_count x.
Proof.
  intros Hperm. unfold TileManager.initialize_tile_pool, copies.
  rewrite (Hperm _). apply copies_unshuffled.
Qed.

Lemma initialize_tile_pool_contents_witness :
  copies "E"%char (TileManager.initialize_tile_pool reverse)
  = table_count "E"%char.
Proof.
  apply initialize_tile_pool_contents. intros l. apply reverse_Permutation.
Defined.

(** X19: A draw never raises and splits the pool: the tiles left followed by the
    tiles drawn, last drawn first, are the pool as it was; as many tiles are
    drawn as asked for, but no more than there are and none for a request
    below one. *)
Theorem draw_tiles_splits pool num :
  ∃ drawn pool',
    TileManager.draw_tiles pool num = (Ok drawn, pool') ∧
    pool = pool' ++ reverse drawn ∧
    Z.of_nat (length drawn) = Z.max 0 (Z.min num (Z.of_nat (length pool))).
Proof.
  eexists _, _. split; [apply draw_tiles_spec|]. split.
  - rewrite take_reverse, reverse_involutive. by rewrite take_drop.
  - rewrite length_take, length_reverse. lia.
Qed.

(** X20: Two draws in a row hand out what one draw of the sum would: the same
    tiles in the same order, the same pool left. *)
Theorem draw_tiles_twice pool (n1 n2 : Z) :
  0 ≤ n1 → 0 ≤ n2 →
  TileManager.draws pool [n1; n2] = TileManager.draw_tiles pool (n1 + n2).
Proof.
  intros H1 H2. cbn [TileManager.draws]. rewrite !draw_tiles_spec.
  cbn [mbind result_bind]. rewrite app_nil_r. f_equal.
  - f_equal. rewrite Z2Nat.inj_add by lia.
    rewrite <- take_take_drop. f_equal.
    rewrite drop_reverse. done.
  - rewrite length_take, take_take. f_equal. lia.
Qed.

Lemma draw_tiles_twice_witness :
  TileManager.draws (TileManager.initialize_tile_pool reverse) [7; 3]
  = TileManager.draw_tiles (TileManager.initialize_tile_pool reverse) (7 + 3).
Proof. apply draw_tiles_twice; lia. Defined.
End pool_contents.

(** * More of the game: what turns keep *)

Section game.
Implicit Types (g : GameState.t) (m : GameState.move).

(** One turn: the board keeps its shape and its letters, the pool loses
    tiles from its end only, and the computer's hand is not touched. *)
Lemma player_turn_step g m :
  Board.wf (GameState.board g) →
  let g' := (GameState.player_turn g m).2 in
  Board.wf (GameState.board g') ∧
  Board.size (GameState.board g') = Board.size (GameState.board g) ∧
  (Board.occupied (GameState.board g)
   ≤ Board.occupied (GameState.board g'))%nat ∧
  GameState.tile_manager g' `prefix_of` GameState.tile_manager g ∧
  GameState.computer g' = GameState.computer g.
Proof.
  intros Hwf. unfold GameState.player_turn.
  case_decide as Hword; [done|].
  fold (move_start m). fold (move_direction m).
  pose proof (place_word_wf (move_start m) (move_direction m) _
                (GameState.word m) Hwf) as [Hwf' Hsz].
  destruct (place_word_cases (GameState.board g) (GameState.word m)
              (move_start m) (move_direction m) Hwf)
    as [Hp|[[e Hp]|(b' & Hp & _ & Hocc)]]; rewrite Hp in *; cbn [snd] in *.
  - done.
  - done.
  - rewrite remove_letters_total, draw_tiles_spec. cbn.
    split; [done|]. split; [done|]. split; [lia|]. split; [|done].
    apply prefix_take.
Qed.

(** X21: A turn that does not end with the word placed changes nothing at all:
    board, pool and hands are as before. *)
Theorem player_turn_rejected_unchanged g m :
  Board.wf (GameState.board g) →
  (GameState.player_turn g m).1 ≠ Ok GameState.WordPlaced →
  (GameState.player_turn g m).2 = g.
Proof.
  intros Hwf Hno.
  destruct (player_turn_cases g m Hwf) as [Hp|[[e Hp]|(g' & Hp & _)]];
    rewrite Hp in *; done.
Qed.

Lemma player_turn_rejected_unchanged_witness :
  (GameState.player_turn game_in_table_order
     (GameState.mkmove "ZEBRA" 3 13 "ACROSS")).2 = game_in_table_order.
Proof.
  apply player_turn_rejected_unchanged; [exact wf_init|].
  vm_compute. discriminate.
Defined.

(** X22: However the pool was shuffled and whatever is played, the board stays
    15 by 15, the computer never holds a tile,
    and the pool is what is left of the shuffled pool after tiles were taken
    from its end: it is never refilled or reordered. *)
Theorem game_loop_keeps (shuffle : list Letter → list Letter)
    (moves : list GameState.move) :
  let g := (GameState.game_loop (GameState.init shuffle) moves).2 in
  Board.wf (GameState.board g) ∧
  Board.size (GameState.board g) = 15 ∧
  GameState.computer g = [] ∧
  GameState.tile_manager g
    `prefix_of` TileManager.initialize_tile_pool shuffle.
Proof.
  unfold GameState.game_loop, GameState.draw_player_tiles.
  rewrite draw_tiles_spec. cbn [GameState.init GameState.tile_manager
    GameState.board GameState.computer GameState.human].
  set (g0 := GameState.mk _ _ _ _).
  assert (Hinv : ∀ moves g,
            Board.wf (GameState.board g) →
            let g' := (GameState.turns g moves).2 in
            Board.wf (GameState.board g') ∧
            Board.size (GameState.board g') = Board.size (GameState.board g) ∧
            GameState.computer g' = GameState.computer g ∧
            GameState.tile_manager g' `prefix_of` GameState.tile_manager g).
  { clear. induction moves as [|m rest IH]; intros g Hwf; [done|].
    cbn [GameState.turns].
    destruct (player_turn_step g m Hwf) as (Hwf1 & Hsz1 & _ & Hpre1 & Hc1).
    destruct (GameState.player_turn g m) as [[?|e] g1]; cbn [snd] in *;
      [|done].
    destruct (IH g1 Hwf1) as (? & ? & ? & ?).
    split; [done|]. split; [congruence|]. split; [congruence|]. by etrans. }
  destruct (Hinv moves g0 wf_init) as (Hwf & Hsz & Hc & Hpre).
  split; [done|]. split; [done|]. split; [done|].
  etrans; [exact Hpre|]. apply prefix_take.
Qed.

(** X23: The opening deal: seven tiles in the hand, 91 in the pool, and together
    they are the shuffled pool. *)
Theorem draw_player_tiles_deal (shuffle : list Letter → list Letter) :
  (∀ l, shuffle l ≡ₚ l) →
  let g := (GameState.draw_player_tiles (GameState.init shuffle)).2 in
  (GameState.draw_player_tiles (GameState.init shuffle)).1 = Ok tt ∧
  length (GameState.human g) = 7%nat ∧
  length (GameState.tile_manager g) = 91%nat ∧
  TileManager.initialize_tile_pool shuffle
    = GameState.tile_manager g ++ reverse (GameState.human g) ∧
  Board.is_first_turn (GameState.board g) = true.
Proof.
  intros Hperm. unfold GameState.draw_player_tiles.
  rewrite draw_tiles_spec. cbn [fst snd GameState.init GameState.tile_manager
    GameState.board GameState.computer GameState.human].
  pose proof (length_initialize_tile_pool _ Hperm) as Hlen.
  rewrite !length_take, length_reverse, Hlen.
  split; [done|]. split; [done|]. split; [done|]. split; [|done].
  rewrite take_reverse, reverse_involutive, Hlen. by rewrite take_drop.
Qed.

Lemma draw_player_tiles_deal_witness :
  let g := (GameState.draw_player_tiles (GameState.init reverse)).2 in
  (GameState.draw_player_tiles (GameState.init reverse)).1 = Ok tt ∧
  length (GameState.human g) = 7%nat ∧
  length (GameState.tile_manager g) = 91%nat ∧
  TileManager.initialize_tile_pool reverse
    = GameState.tile_manager g ++ reverse (GameState.human g) ∧
  Board.is_first_turn (GameState.board g) = true.
Proof.
  apply draw_player_tiles_deal. intros l. apply reverse_Permutation.
Defined.

(** X24: Before ["yes"] is typed nothing happens to the game: any other answers
    leave it as it is, and ["quit"] ends the dialogue with the game
    untouched. *)
Theorem start_game_not_started g (answers : list string)
    (moves : list GameState.move) :
  "yes"%string ∉ answers →
  GameState.start_game g answers moves = (Ok tt, g).
Proof.
  induction answers as [|a rest IH]; [done|].
  intros [Ha Hrest]%not_elem_of_cons. cbn [GameState.start_game].
  rewrite decide_False by done. case_decide; [done|]. by apply IH.
Qed.

Lemma start_game_not_started_witness :
  GameState.start_game (GameState.init reverse) ["y"; ""; "quit"]%string
    [GameState.mkmove "CAT" 8 8 "ACROSS"]
  = (Ok tt, GameState.init reverse).
Proof. apply start_game_not_started. compute_done. Defined.

(** X25: Answers other than ["yes"] and ["quit"] are asked again: the first
    ["yes"] starts the game loop on the untouched game. *)
Theorem start_game_started g (answers rest : list string)
    (moves : list GameState.move) :
  "yes"%string ∉ answers → "quit"%string ∉ answers →
  GameState.start_game g (answers ++ "yes"%string :: rest) moves
  = GameState.game_loop g moves.
Proof.
  induction answers as [|a answers IH]; cbn [app GameState.start_game].
  - intros _ _. by rewrite decide_True.
  - intros [Ha Hy]%not_elem_of_cons [Hq Hqs]%not_elem_of_cons.
    rewrite !decide_False by done. by apply IH.
Qed.

Lemma start_game_started_witness :
  GameState.start_game (GameState.init reverse)
    (app ["y"; "start"] ("yes" :: ["quit"]))%string
    [GameState.mkmove "CAT" 8 8 "ACROSS"]
  = GameState.game_loop (GameState.init reverse)
      [GameState.mkmove "CAT" 8 8 "ACROSS"].
Proof. apply start_game_started; compute_done. Defined.
End game.

(** * The text of the board *)

Section text.
Implicit Types (b : Board.t) (row : list Letter) (s sep : string)
               (parts : list string).

Lemma letters_app s1 s2 : letters (s1 ++ s2) = letters s1 ++ letters s2.
Proof.
  unfold letters. induction s1 as [|a s1 IH]; [done|].
  change (String a s1 ++ s2)%string with (String a (s1 ++ s2)%string).
  cbn [list_ascii_of_string app]. by rewrite IH.
Qed.

Lemma get_letters s : ∀ n, String.get n s = letters s !! n.
Proof.
  unfold letters. induction s as [|a s IH]; intros [|n]; cbn; auto.
Qed.

Lemma join_cons_cons sep s1 s2 parts :
  join sep (s1 :: s2 :: parts) = (s1 ++ sep ++ join sep (s2 :: parts))%string.
Proof. done. Qed.

Lemma letters_shown (x : Letter) :
  letters (Board.shown x) = [if decide (x ≠ Board.dot) then x else "_"%char].
Proof. unfold Board.shown. by case_decide. Qed.

(** The characters of a joined text come from the separator or from one of
    the parts. *)
Lemma elem_of_letters_join sep parts (c : ascii) :
  c ∈ letters (join sep parts) →
  c ∈ letters sep ∨ ∃ s, s ∈ parts ∧ c ∈ letters s.
Proof.
  induction parts as [|s1 [|s2 parts] IH].
  - by intros ?%elem_of_nil.
  - intros Hc. right. exists s1. split; [left|done].
  - rewrite join_cons_cons, !letters_app, !elem_of_app.
    intros [Hc|[Hc|Hc]].
    + right. exists s1. split; [left|done].
    + by left.
    + destruct (IH Hc) as [?|(s & Hs & ?)]; [by left|].
      right. exists s. split; [by right|done].
Qed.

(** A row of [n >= 1] cells is shown on [2 n - 1] characters, cell [j] at
    character [2 j]. *)
Lemma letters_row row :
  (row ≠ [] →
   length (letters (join " " (map Board.shown row)))
   = (2 * length row - 1)%nat) ∧
  ∀ (j : nat) x, row !! j = Some x →
    letters (join " " (map Board.shown row)) !! (2 * j)%nat
    = Some (if decide (x ≠ Board.dot) then x else "_"%char).
Proof.
  induction row as [|x1 [|x2 row] IH].
  - split; [done|]. by intros [|?].
  - split.
    + intros _. cbn [map]. unfold join. cbn [String.concat].
      by rewrite letters_shown.
    + intros [|j] x Hx; [|done]. injection Hx as <-. cbn [map].
      unfold join. cbn [String.concat]. by rewrite letters_shown.
  - destruct IH as [IHlen IHget]. cbn [map] in *.
    rewrite join_cons_cons, !letters_app, letters_shown. split.
    + intros _. rewrite !length_app, IHlen by done. cbn. lia.
    + intros [|j] x Hx.
      * by injection Hx as <-.
      * replace (2 * S j)%nat with (S (S (2 * j))) by lia. cbn.
        by apply IHget.
Qed.

(** In a text of lines of [m] characters each, character [i] of line [k] is
    character [k * (m + 1) + i] of the text. *)
Lemma letters_lines (m : nat) parts : ∀ (k i : nat) s (c : ascii),
  Forall (λ s, length (letters s) = m) parts →
  parts !! k = Some s → letters s !! i = Some c →
  letters (join Board.newline parts) !! (k * (m + 1) + i)%nat = Some c.
Proof.
  induction parts as [|s1 [|s2 parts] IH]; intros k i s c Hlen Hs Hc.
  - done.
  - destruct k as [|[|k]]; [|done|done]. by injection Hs as <-.
  - rewrite join_cons_cons, !letters_app.
    apply Forall_cons in Hlen as [Hlen1 Hlen]. cbn beta in Hlen1.
    destruct k as [|k].
    + injection Hs as <-. cbn. by apply lookup_app_l_Some.
    + assert (S k * (m + 1) + i = length (letters s1) + S (k * (m + 1) + i))%nat
        as -> by lia.
      rewrite lookup_app_r by apply Nat.le_add_r.
      rewrite Nat.add_sub'. cbn. by eapply IH.
Qed.

(** X26: [__str__] never shows the empty marker: the text holds no ["."]. *)
Theorem str_no_dot b : Board.dot ∉ letters (Board.str b).
Proof.
  unfold Board.str.
  intros [Hnl|(s & Hs & Hc)]%elem_of_letters_join.
  - revert Hnl. compute_done.
  - apply list_elem_of_fmap in Hs as (row & -> & _).
    apply elem_of_letters_join in Hc as [Hsp|(s & Hs & Hx)].
    + revert Hsp. compute_done.
    + apply list_elem_of_fmap in Hs as (x & -> & _).
      rewrite letters_shown in Hx. apply list_elem_of_singleton in Hx.
      by case_decide.
Qed.

(** X27: [__str__] shows the cell in row [r] and column [c] as character
    [r * 2 * size + 2 * c] of the text: the letter it holds, or ["_"] when
    it is empty. *)
Theorem str_shows_cell b (r c : Z) (x : Letter) :
  Board.wf b → Board.in_bounds b (r, c) = true →
  Board.tile b (r, c) = Ok x →
  String.get (Z.to_nat (r * (2 * Board.size b) + 2 * c)) (Board.str b)
  = Some (if decide (x ≠ Board.dot) then x else "_"%char).
Proof.
  intros Hwf Hin Hx.
  destruct (tile_in_bounds b r c Hwf Hin) as (row & y & Hrow & Hy & _ & _ & Ht).
  assert (y = x) as -> by congruence.
  destruct Hwf as [Hlen Hrows].
  apply andb_prop in Hin as [Hr Hc]. apply bool_decide_eq_true in Hr, Hc.
  rewrite get_letters. unfold Board.str.
  set (n := Z.to_nat (Board.size b)).
  replace (Z.to_nat (r * (2 * Board.size b) + 2 * c))
    with (Z.to_nat r * ((2 * n - 1) + 1) + 2 * Z.to_nat c)%nat by nia.
  eapply (letters_lines (2 * n - 1)).
  - apply Forall_fmap, Forall_forall. intros row' Hrow'.
    change (length (letters (join " " (map Board.shown row')))
            = (2 * n - 1)%nat).
    rewrite Forall_forall in Hrows. specialize (Hrows row' Hrow').
    cbn beta in Hrows.
    destruct (letters_row row') as [Hl _]. rewrite Hl; [lia|].
    intros ->. cbn in Hrows. lia.
  - by rewrite list_lookup_fmap, Hrow.
  - by apply letters_row.
Qed.

Lemma str_shows_cell_witness :
  String.get (Z.to_nat (7 * (2 * Board.size board_CAT) + 2 * 8))
    (Board.str board_CAT) = Some "A"%char.
Proof.
  apply (str_shows_cell board_CAT 7 8 "A"%char);
    [exact wf_board_CAT|reflexivity|reflexivity].
Defined.
End text.
